(** * ABI loading form and serializer workspace

    A shallow embedding of [src/components/ExecutorAbiForm.vue] (the Vue form
    that loads, validates and persists contract ABIs) and of the
    [SerializerWorkspace] React component that follows it in the same source
    file.

    The browser, the JavaScript runtime and the [@core] module are outside
    the repository: they appear here as interfaces ([Core], [JsonValue],
    [JsonCodec], [Runtime], [WebIO], [Common]) whose operations return
    JavaScript completions.  Component state is threaded explicitly through a
    small state-and-exception monad.  Updates of [document.title] are not
    modelled. *)

From Stdlib Require Import Ascii.
From stdpp Require Import base strings list gmap sorting pretty.

(** ** JavaScript completions and thrown values *)

(** A thrown value.  [JsError m] is [new Error(m)]; every other thrown value
    (a [DOMException], a [TypeError], a string thrown by the wasm core) is
    recorded through the string its [toString()] produces. *)
Inductive JsExn : Type :=
| JsError (message : string)
| JsThrown (repr : string).

(** [e.toString()]: [Error.prototype.toString] yields the name alone when the
    message is empty and ["Error: " + message] otherwise. *)
Definition exn_toString (e : JsExn) : string :=
  match e with
  | JsError m => if decide (m = "") then "Error" else "Error: " +:+ m
  | JsThrown r => r
  end.

(** The outcome of evaluating a call: a value, or a thrown exception (for an
    awaited promise: fulfilled or rejected). *)
Inductive completion (A : Type) : Type :=
| Returns (a : A)
| Throws (e : JsExn).
Arguments Returns {A} a.
Arguments Throws {A} e.

(** ** Effects: component state with exceptions

    [Eff S A] is a computation over a mutable state [S] that returns an [A] or
    throws.  A throw keeps the state reached so far, as in JavaScript. *)
Definition Eff (S A : Type) : Type := S → completion A * S.

Definition eff_ret {S A} (a : A) : Eff S A := λ s, (Returns a, s).

Definition eff_bind {S A B} (m : Eff S A) (k : A → Eff S B) : Eff S B :=
  λ s, match m s with
       | (Returns a, s') => k a s'
       | (Throws e, s') => (Throws e, s')
       end.

Definition throw {S A} (e : JsExn) : Eff S A := λ s, (Throws e, s).

(** [lift c] injects the completion of a call that does not touch the state
    (a core call, an awaited load). *)
Definition lift {S A} (c : completion A) : Eff S A := λ s, (c, s).

Definition gets {S A} (f : S → A) : Eff S A := λ s, (Returns (f s), s).

Definition modify {S} (f : S → S) : Eff S () := λ s, (Returns (), f s).

(** [try { m } catch (e) { h e }] *)
Definition try_catch {S A} (m : Eff S A) (h : JsExn → Eff S A) : Eff S A :=
  λ s, match m s with
       | (Returns a, s') => (Returns a, s')
       | (Throws e, s') => h e s'
       end.

(** [try { m } finally { f }]: [f] always runs; its own throw would replace
    the outcome of [m]. *)
Definition try_finally {S A} (m : Eff S A) (f : Eff S ()) : Eff S A :=
  λ s, let '(r, s') := m s in
       match f s' with
       | (Returns _, s'') => (r, s'')
       | (Throws e, s'') => (Throws e, s'')
       end.

Notation "'do' x <- m ; k" := (eff_bind m (λ x, k))
  (at level 10, x name, m at level 100, k at level 200,
   format "'[v' 'do'  x  <-  m ; '/' k ']'").

(** The state a computation ends in, whatever its outcome. *)
Definition exec {S A} (m : Eff S A) (s : S) : S := (m s).2.

(** ** Strings *)

(** [s.split(c).shift()]: the part of [s] before the first [c] (all of [s]
    when [c] does not occur). *)
Fixpoint split_shift (c : ascii) (s : string) : string :=
  match s with
  | EmptyString => EmptyString
  | String a s' => if decide (a = c) then EmptyString else String a (split_shift c s')
  end.

(** [s.split(c).pop()]: the part of [s] after the last [c] (all of [s] when
    [c] does not occur).  [acc] is the segment read so far. *)
Fixpoint split_pop_from (c : ascii) (acc : string) (s : string) : string :=
  match s with
  | EmptyString => acc
  | String a s' =>
      if decide (a = c) then split_pop_from c EmptyString s'
      else split_pop_from c (acc +:+ String a EmptyString) s'
  end.

Definition split_pop (c : ascii) (s : string) : string :=
  split_pop_from c EmptyString s.

(** ** Sorting

    [Array.prototype.sort(cmp)] is stable; for a consistent comparator its
    result is the stable sort with [x] before [y] when [cmp x y <= 0].  It is
    modelled as a stable insertion sort. *)
Section js_sort.
Context {A : Type} (cmp : A → A → Z).

Fixpoint sort_insert (x : A) (l : list A) : list A :=
  match l with
  | [] => [x]
  | y :: l' => if decide (cmp x y ≤ 0)%Z then x :: y :: l' else y :: sort_insert x l'
  end.

Definition js_sort (l : list A) : list A := foldr sort_insert [] l.

(** [x] may stand before [y]. *)
Definition cmp_le (x y : A) : Prop := (cmp x y ≤ 0)%Z.

End js_sort.

(** ** Interfaces to code outside the repository *)

(** The [@core] module: ABI validation and decoding.  [checkAbi] returns
    nothing and throws on an invalid ABI; [parseAbi] returns a handler that
    owns wasm memory until [free()] is called. *)
Class Core := {
  AbiEntityHandler : Type;
  AbiEntity : Type;
  checkAbi : string → completion ();
  parseAbi : string → completion AbiEntityHandler;
  handler_data : AbiEntityHandler → AbiEntity;
}.

(** Values produced by [res.json()], observed the way the form observes them:
    truthiness, property access and [JSON.stringify(v)]. *)
Class JsonValue := {
  Json : Type;
  js_truthy : Json → bool;
  js_get : Json → string → option Json;
  JSON_stringify : Json → string;
}.

(** [JSON.parse(text)] and [JSON.stringify(v, undefined, indent)] as used by
    the workspace.  [JSON_parse] is [None] when it throws a [SyntaxError]. *)
Class JsonCodec := {
  Parsed : Type;
  JSON_parse : string → option Parsed;
  JSON_stringify_indent : Parsed → nat → string;
}.

(** Locale-aware comparison and the clock.  [collator_compare] is
    [new Intl.Collator(undefined, {numeric: true, sensitivity: 'base'}).compare];
    [localeCompare_numeric_case x y] is
    [x.localeCompare(y, undefined, {numeric: true, sensitivity: 'case'})];
    [now_toISOString] is [new Date().toISOString()]. *)
Class Runtime := {
  collator_compare : string → string → Z;
  localeCompare_numeric_case : string → string → Z;
  now_toISOString : string;
}.

(** Files, URLs, the network and [fflate].  [Bytes] stands for an
    [ArrayBuffer] and its [Uint8Array] view. *)
Class WebIO := {
  File : Type;
  Bytes : Type;
  URL : Type;
  file_name : File → string;
  new_File : Bytes → string → File;
  readAsText : File → completion (option string);
  file_arrayBuffer : File → completion Bytes;
  new_URL : string → completion URL;
  URL_toString : URL → string;
  fetch_text : string → completion string;
  fetch_arrayBuffer : string → completion Bytes;
  unzipSync : Bytes → completion (list (string * Bytes));
}.

(** [../common]: helpers of this repository that live outside the form. *)
Class Common `{!WebIO} := {
  rewriteAbiUrl : URL → URL;
  convertAddress : string → string;
}.

(** [String.prototype.toLowerCase], used by the filter of the dropdown. *)
Class StringCase := {
  toLowerCase : string → string;
}.


(** * The ABI form ([ExecutorAbiForm.vue]) *)

Section form.
Context `{!Core, !JsonValue, !Runtime, !WebIO, !Common}.

Inductive LoadAbiType : Type := FROM_FILE | FROM_TEXT | FROM_LINK | FROM_ZIP.

Definition DEFAULT_ABI_NAME : string := "abi1".

(** [fieldsInput.value.zip] *)
Record ZipInput : Type := {
  zip_file : option File;
  zip_link : option string;
}.

(** [fieldsInput.value]; an absent property is [None]. *)
Record FieldsInput : Type := {
  input_file : option File;
  input_text : option string;
  input_link : option string;
  input_zip : option ZipInput;
}.

(** [fieldsInput.value = {}] *)
Definition no_fields : FieldsInput :=
  {| input_file := None; input_text := None; input_link := None; input_zip := None |}.

(** The refs of the component, together with the two things it acts on
    outside itself: the browser's [localStorage] and the ['change'] events it
    has emitted (payloads in order; [None] is [null] or [undefined]). *)
Record FormState : Type := {
  modalType : option LoadAbiType;
  abiNameInput : string;
  fieldsInput : FieldsInput;
  everscanAbi : option string;
  error : option string;
  storedAbi : list string;
  abiFilter : string;
  selectedAbi : option string;
  abiSelectorVisible : bool;
  inProgress : bool;
  localStorage : gmap string string;
  emitted : list (option string);
}.

Definition set_modalType (v : option LoadAbiType) (s : FormState) : FormState :=
  {| modalType := v; abiNameInput := abiNameInput s; fieldsInput := fieldsInput s;
     everscanAbi := everscanAbi s; error := error s; storedAbi := storedAbi s;
     abiFilter := abiFilter s; selectedAbi := selectedAbi s;
     abiSelectorVisible := abiSelectorVisible s; inProgress := inProgress s;
     localStorage := localStorage s; emitted := emitted s |}.

Definition set_abiNameInput (v : string) (s : FormState) : FormState :=
  {| modalType := modalType s; abiNameInput := v; fieldsInput := fieldsInput s;
     everscanAbi := everscanAbi s; error := error s; storedAbi := storedAbi s;
     abiFilter := abiFilter s; selectedAbi := selectedAbi s;
     abiSelectorVisible := abiSelectorVisible s; inProgress := inProgress s;
     localStorage := localStorage s; emitted := emitted s |}.

Definition set_fieldsInput (v : FieldsInput) (s : FormState) : FormState :=
  {| modalType := modalType s; abiNameInput := abiNameInput s; fieldsInput := v;
     everscanAbi := everscanAbi s; error := error s; storedAbi := storedAbi s;
     abiFilter := abiFilter s; selectedAbi := selectedAbi s;
     abiSelectorVisible := abiSelectorVisible s; inProgress := inProgress s;
     localStorage := localStorage s; emitted := emitted s |}.

Definition set_everscanAbi (v : option string) (s : FormState) : FormState :=
  {| modalType := modalType s; abiNameInput := abiNameInput s; fieldsInput := fieldsInput s;
     everscanAbi := v; error := error s; storedAbi := storedAbi s;
     abiFilter := abiFilter s; selectedAbi := selectedAbi s;
     abiSelectorVisible := abiSelectorVisible s; inProgress := inProgress s;
     localStorage := localStorage s; emitted := emitted s |}.

Definition set_error (v : option string) (s : FormState) : FormState :=
  {| modalType := modalType s; abiNameInput := abiNameInput s; fieldsInput := fieldsInput s;
     everscanAbi := everscanAbi s; error := v; storedAbi := storedAbi s;
     abiFilter := abiFilter s; selectedAbi := selectedAbi s;
     abiSelectorVisible := abiSelectorVisible s; inProgress := inProgress s;
     localStorage := localStorage s; emitted := emitted s |}.

Definition set_storedAbi (v : list string) (s : FormState) : FormState :=
  {| modalType := modalType s; abiNameInput := abiNameInput s; fieldsInput := fieldsInput s;
     everscanAbi := everscanAbi s; error := error s; storedAbi := v;
     abiFilter := abiFilter s; selectedAbi := selectedAbi s;
     abiSelectorVisible := abiSelectorVisible s; inProgress := inProgress s;
     localStorage := localStorage s; emitted := emitted s |}.

Definition set_abiFilter (v : string) (s : FormState) : FormState :=
  {| modalType := modalType s; abiNameInput := abiNameInput s; fieldsInput := fieldsInput s;
     everscanAbi := everscanAbi s; error := error s; storedAbi := storedAbi s;
     abiFilter := v; selectedAbi := selectedAbi s;
     abiSelectorVisible := abiSelectorVisible s; inProgress := inProgress s;
     localStorage := localStorage s; emitted := emitted s |}.

Definition set_selectedAbi (v : option string) (s : FormState) : FormState :=
  {| modalType := modalType s; abiNameInput := abiNameInput s; fieldsInput := fieldsInput s;
     everscanAbi := everscanAbi s; error := error s; storedAbi := storedAbi s;
     abiFilter := abiFilter s; selectedAbi := v;
     abiSelectorVisible := abiSelectorVisible s; inProgress := inProgress s;
     localStorage := localStorage s; emitted := emitted s |}.

Definition set_abiSelectorVisible (v : bool) (s : FormState) : FormState :=
  {| modalType := modalType s; abiNameInput := abiNameInput s; fieldsInput := fieldsInput s;
     everscanAbi := everscanAbi s; error := error s; storedAbi := storedAbi s;
     abiFilter := abiFilter s; selectedAbi := selectedAbi s;
     abiSelectorVisible := v; inProgress := inProgress s;
     localStorage := localStorage s; emitted := emitted s |}.

Definition set_inProgress (v : bool) (s : FormState) : FormState :=
  {| modalType := modalType s; abiNameInput := abiNameInput s; fieldsInput := fieldsInput s;
     everscanAbi := everscanAbi s; error := error s; storedAbi := storedAbi s;
     abiFilter := abiFilter s; selectedAbi := selectedAbi s;
     abiSelectorVisible := abiSelectorVisible s; inProgress := v;
     localStorage := localStorage s; emitted := emitted s |}.

Definition set_localStorage (v : gmap string string) (s : FormState) : FormState :=
  {| modalType := modalType s; abiNameInput := abiNameInput s; fieldsInput := fieldsInput s;
     everscanAbi := everscanAbi s; error := error s; storedAbi := storedAbi s;
     abiFilter := abiFilter s; selectedAbi := selectedAbi s;
     abiSelectorVisible := abiSelectorVisible s; inProgress := inProgress s;
     localStorage := v; emitted := emitted s |}.

Definition set_emitted (v : list (option string)) (s : FormState) : FormState :=
  {| modalType := modalType s; abiNameInput := abiNameInput s; fieldsInput := fieldsInput s;
     everscanAbi := everscanAbi s; error := error s; storedAbi := storedAbi s;
     abiFilter := abiFilter s; selectedAbi := selectedAbi s;
     abiSelectorVisible := abiSelectorVisible s; inProgress := inProgress s;
     localStorage := localStorage s; emitted := v |}.

(** A method of the component. *)
Definition Form (A : Type) : Type := Eff FormState A.

(** [emit('change', abi)] *)
Definition emit_change (abi : option string) : Form () :=
  modify (λ s, set_emitted (emitted s ++ [abi]) s).

(** ** [localStorage]

    The [Storage] object is a finite map from keys to texts.  [setItem] is
    taken to succeed: a storage that is full is not modelled, and what is
    stated below of a submit that fails is stated of failures of the load and
    of the validation, which come before any write. *)
Definition localStorage_getItem (name : string) : Form (option string) :=
  gets (λ s, localStorage s !! name).

Definition localStorage_setItem (name value : string) : Form () :=
  modify (λ s, set_localStorage (<[name := value]> (localStorage s)) s).

Definition localStorage_removeItem (name : string) : Form () :=
  modify (λ s, set_localStorage (delete name (localStorage s)) s).

(** The property names of [Storage.prototype] and [Object.prototype].  A
    stored key with one of these names is shadowed by the property of the
    prototype: [getItem] finds it, but it is not an own property of the
    [Storage] object. *)
Definition prototype_names : list string :=
  [ "length"; "key"; "getItem"; "setItem"; "removeItem"; "clear"; "constructor";
    "__defineGetter__"; "__defineSetter__"; "hasOwnProperty"; "__lookupGetter__";
    "__lookupSetter__"; "isPrototypeOf"; "propertyIsEnumerable"; "toString";
    "valueOf"; "__proto__"; "toLocaleString" ].

Definition enumerable (key : string) : bool := bool_decide (key ∉ prototype_names).

(** [Object.keys(localStorage)]: the stored keys that are own properties.  The
    order in which a browser enumerates them is its own; the properties below
    that speak of the content of the list do not depend on it. *)
Definition Object_keys (ls : gmap string string) : list string :=
  filter (λ key, enumerable key = true) (map_to_list ls).*1.

(** [const getAllAbis = () => Object.keys(localStorage).sort(COLLATOR.compare)] *)
Definition sorted_keys (ls : gmap string string) : list string :=
  js_sort collator_compare (Object_keys ls).

Definition getAllAbis : Form (list string) :=
  gets (λ s, sorted_keys (localStorage s)).

(** The state of a freshly set-up component over a given storage. *)
Definition setup (ls : gmap string string) : FormState :=
  {| modalType := None; abiNameInput := DEFAULT_ABI_NAME; fieldsInput := no_fields;
     everscanAbi := None; error := None; storedAbi := sorted_keys ls;
     abiFilter := ""; selectedAbi := None; abiSelectorVisible := false;
     inProgress := false; localStorage := ls; emitted := [] |}.

(** ** Selecting and deleting stored ABIs *)

Definition onSelectAbi (name : string) : Form () :=
  do text <- localStorage_getItem name;
  do _ <- modify (set_selectedAbi (match text with Some _ => Some name | None => None end));
  do _ <- modify (set_abiSelectorVisible false);
  emit_change text.

Definition onDeleteAbi (name : string) : Form () :=
  do _ <- localStorage_removeItem name;
  do keys <- getAllAbis;
  modify (set_storedAbi keys).

Definition closeModal : Form () :=
  do _ <- modify (set_modalType None);
  do _ <- modify (set_fieldsInput no_fields);
  modify (set_error None).

(** ** Input handlers of the modal

    [files] is [(e.target as HTMLInputElement).files]: [None] for [null]. *)
Definition onChangeFile (files : option (list File)) : Form () :=
  match files with
  | None | Some [] => eff_ret ()
  | Some (f :: _) =>
      modify (set_fieldsInput
        {| input_file := Some f; input_text := None; input_link := None; input_zip := None |})
  end.

Definition onChangeZipFile (files : option (list File)) : Form () :=
  match files with
  | None | Some [] => eff_ret ()
  | Some (f :: _) =>
      modify (set_fieldsInput
        {| input_file := None; input_text := None; input_link := None;
           input_zip := Some {| zip_file := Some f; zip_link := None |} |})
  end.

Definition onChangeText (value : string) : Form () :=
  modify (set_fieldsInput
    {| input_file := None; input_text := Some value; input_link := None; input_zip := None |}).

Definition onChangeLink (value : string) : Form () :=
  modify (set_fieldsInput
    {| input_file := None; input_text := None; input_link := Some value; input_zip := None |}).

Definition onChangeZipLink (value : string) : Form () :=
  modify (set_fieldsInput
    {| input_file := None; input_text := None; input_link := None;
       input_zip := Some {| zip_file := None; zip_link := Some value |} |}).

Definition onToggleAbiSelector : Form () :=
  do visible <- gets (λ s, negb (abiSelectorVisible s));
  do _ <- modify (set_abiSelectorVisible visible);
  modify (set_abiFilter "").

Definition onHideAbiSelector : Form () :=
  do _ <- modify (set_abiFilter "");
  modify (set_abiSelectorVisible false).

(** ** Loading a single ABI *)

(** Sequencing of awaited calls outside the component state. *)
Definition and_then {A B} (c : completion A) (k : A → completion B) : completion B :=
  match c with
  | Returns a => k a
  | Throws e => Throws e
  end.

Fixpoint all_completions {A B} (f : A → completion B) (l : list A) : completion (list B) :=
  match l with
  | [] => Returns []
  | x :: l' => and_then (f x) (λ y, and_then (all_completions f l') (λ ys, Returns (y :: ys)))
  end.

(** [content || ''] and [result ?? ''] for [string | undefined]: both give the
    string itself when there is one (the empty string is its own default). *)
Definition or_empty (content : option string) : string :=
  match content with
  | Some c => c
  | None => ""
  end.

(** [loadAbiText()], as a function of the [fieldsInput.value] it destructures
    on entry; its completion is what the returned promise settles to. *)
Definition loadAbiText (fields : FieldsInput) : completion string :=
  match input_text fields with
  | Some text => Returns text
  | None =>
      match input_link fields with
      | Some link =>
          and_then (new_URL link) (λ u,
            fetch_text (URL_toString (rewriteAbiUrl u)))
      | None =>
          match input_file fields with
          | Some file =>
              and_then (readAsText file) (λ content, Returns (or_empty content))
          | None => Throws (JsError "No ABI input specified")
          end
      end
  end.

(** ** Loading a zip archive *)

Record AbiFile : Type := {
  filename : string;
  text : string;
}.

(** [type ZipContent] *)
Record ZipContent : Type := {
  archive_filename : string;
  files : list AbiFile;
}.

(** [!zip?.link]: a link that is absent or empty is falsy. *)
Definition link_given (link : option string) : bool :=
  match link with
  | Some l => bool_decide (l ≠ "")
  | None => false
  end.

(** [loadZipContent()], as a function of [fieldsInput.value].  The entries
    are read in the order [Object.entries] gives them; the first read that
    fails rejects the whole load. *)
Definition loadZipContent (fields : FieldsInput) : completion ZipContent :=
  let file : option File := input_zip fields ≫= zip_file in
  let link : option string := input_zip fields ≫= zip_link in
  if negb (bool_decide (is_Some file)) && negb (link_given link)
  then Throws (JsError "No zip link or file specified")
  else
    and_then
      (match file with
       | Some f => file_arrayBuffer f
       | None => fetch_arrayBuffer (or_empty link)
       end) (λ buffer,
    and_then (unzipSync buffer) (λ zipContents,
    and_then
      (all_completions
         (λ x : string * Bytes,
            and_then (readAsText (new_File x.2 x.1)) (λ result,
              Returns {| filename := x.1; text := or_empty result |}))
         zipContents) (λ filesData,
    let name :=
      match file with
      | Some f => file_name f
      | None =>
          match link with
          | Some l => split_pop "/"%char l
          | None => "unnamed_archive"
          end
      end in
    let sorted :=
      js_sort (λ x y, localeCompare_numeric_case (filename x) (filename y)) filesData in
    Returns {| archive_filename := name; files := sorted |}))).

(** ** Validating and storing the entries of an archive *)

(** [Array.prototype.forEach] and [Array.prototype.map] with a callback that
    acts on the component. *)
Fixpoint forEach {A} (f : A → Form ()) (l : list A) : Form () :=
  match l with
  | [] => eff_ret ()
  | x :: l' => do _ <- f x; forEach f l'
  end.

Fixpoint map_eff {A B} (f : A → Form B) (l : list A) : Form (list B) :=
  match l with
  | [] => eff_ret []
  | x :: l' => do y <- f x; do ys <- map_eff f l'; eff_ret (y :: ys)
  end.

(** An element of [ZipContentProcessResult] *)
Record StoredAbi : Type := {
  storageKey : string;
  storedText : string;
}.

(** The body of the [forEach] callback: [checkAbi], its exception wrapped. *)
Definition check_entry (abiFile : AbiFile) : Form () :=
  try_catch (lift (checkAbi (text abiFile)))
    (λ err, throw (JsError
       ("Processing error for '" +:+ filename abiFile +:+ "' file. Internal "
          +:+ exn_toString err))).

(** [`${shortZipFilename}_${dateStr}`] *)
Definition parentFormattedFilename (zipContent : ZipContent) : string :=
  let shortZipFilename := split_shift "."%char (archive_filename zipContent) in
  let dateStr := split_shift "T"%char now_toISOString in
  shortZipFilename +:+ "_" +:+ dateStr.

(** [`[${parentFormattedFilename}] ${shortFilename}`] *)
Definition storage_key (parent : string) (abiFile : AbiFile) : string :=
  let shortFilename := split_shift "."%char (filename abiFile) in
  "[" +:+ parent +:+ "] " +:+ shortFilename.

Definition store_entry (parent : string) (abiFile : AbiFile) : Form StoredAbi :=
  let key := storage_key parent abiFile in
  do _ <- localStorage_setItem key (text abiFile);
  eff_ret {| storageKey := key; storedText := text abiFile |}.

Definition processZipContent (zipContent : ZipContent) : Form (list StoredAbi) :=
  if bool_decide (length (files zipContent) = 0)
  then throw (JsError "Provided zip archive is empty")
  else
    do _ <- forEach check_entry (files zipContent);
    map_eff (store_entry (parentFormattedFilename zipContent)) (files zipContent).

(** ** Submitting *)

Definition onSubmitEverscanAbi : Form () :=
  do abi <- gets everscanAbi;
  match abi with
  | Some a => emit_change (Some a)
  | None => eff_ret ()
  end.

(** [onSubmit] awaits [loadAbiText()], so it runs in two turns of the event
    loop.  [onSubmit_start] is the part up to the [await]: it returns [None]
    when the guard returned, and the pending load otherwise.
    [onSubmit_resume] is the rest, run with the outcome of the load on the
    state found at that time. *)
Definition onSubmit_start : Form (option (completion string)) :=
  do busy <- gets inProgress;
  if busy then eff_ret None
  else
    do _ <- modify (set_inProgress true);
    do fields <- gets fieldsInput;
    eff_ret (Some (loadAbiText fields)).

Definition onSubmit_resume (loaded : completion string) : Form () :=
  try_finally
    (try_catch
       (do text <- lift loaded;
        do _ <- lift (checkAbi text);
        do name <- gets abiNameInput;
        do _ <- localStorage_setItem name text;
        do keys <- getAllAbis;
        do _ <- modify (set_storedAbi keys);
        do name <- gets abiNameInput;
        do _ <- modify (set_selectedAbi (Some name));
        do _ <- emit_change (Some text);
        closeModal)
       (λ e, modify (set_error (Some (exn_toString e)))))
    (modify (set_inProgress false)).

(** [onSubmit] with nothing happening while the load is awaited. *)
Definition onSubmit : Form () :=
  do pending <- onSubmit_start;
  match pending with
  | None => eff_ret ()
  | Some loaded => onSubmit_resume loaded
  end.

Definition onSubmitZip_start : Form (option (completion ZipContent)) :=
  do busy <- gets inProgress;
  if busy then eff_ret None
  else
    do _ <- modify (set_inProgress true);
    do fields <- gets fieldsInput;
    eff_ret (Some (loadZipContent fields)).

Definition onSubmitZip_resume (loaded : completion ZipContent) : Form () :=
  try_finally
    (try_catch
       (do zipContent <- lift loaded;
        do abis <- processZipContent zipContent;
        do keys <- getAllAbis;
        do _ <- modify (set_storedAbi keys);
        do _ <- modify (set_selectedAbi (storageKey <$> head abis));
        do _ <- emit_change (storedText <$> head abis);
        closeModal)
       (λ e, modify (set_error (Some (exn_toString e)))))
    (modify (set_inProgress false)).

Definition onSubmitZip : Form () :=
  do pending <- onSubmitZip_start;
  match pending with
  | None => eff_ret ()
  | Some loaded => onSubmitZip_resume loaded
  end.

(** ** The registry watcher

    [watch(() => [props.codeHash, props.address], callback, {immediate: true})].
    Each run of the callback that starts a fetch owns a [localState] and an
    [AbortController]; they are kept in [fetches], indexed in order of
    creation.  [cleanup] is the run whose [onCleanup] function is registered
    with the watcher. *)
Record FetchCtx : Type := {
  fetch_codeHash : string;
  fetch_address : string;
  codeHashChanged : bool;
  aborted : bool;
}.

Record Component : Type := {
  form : FormState;
  cleanup : option nat;
  fetches : list FetchCtx;
}.

(** The function passed to [onCleanup] by run [i]. *)
Definition cleanup_fn (i : nat) (c : Component) : Component :=
  {| form := set_everscanAbi None (form c);
     cleanup := cleanup c;
     fetches :=
       match fetches c !! i with
       | Some ctx =>
           <[i := {| fetch_codeHash := fetch_codeHash ctx; fetch_address := fetch_address ctx;
                     codeHashChanged := true; aborted := true |}]> (fetches c)
       | None => fetches c
       end |}.

(** Before it calls the callback again the watcher calls the registered
    cleanup, once. *)
Definition run_cleanup (c : Component) : Component :=
  match cleanup c with
  | Some i =>
      let c' := cleanup_fn i c in
      {| form := form c'; cleanup := None; fetches := fetches c' |}
  | None => c
  end.

(** The callback up to and including the call of [fetch]. *)
Definition watch_callback (codeHash address : option string) (c : Component) : Component :=
  match address, codeHash with
  | Some a, Some h =>
      {| form := form c;
         cleanup := Some (length (fetches c));
         fetches := fetches c ++
           [{| fetch_codeHash := h; fetch_address := a;
               codeHashChanged := false; aborted := false |}] |}
  | _, _ => c
  end.

(** A change of [props.codeHash] or [props.address]. *)
Definition props_changed (codeHash address : option string) (c : Component) : Component :=
  watch_callback codeHash address (run_cleanup c).

(** The second [then] of run [i], called with the parsed response [data].
    After the guard it stores the ABI; what follows in the source sets
    [document.title] from [data.contract_name], which is not part of the
    state modelled here (an exception there is swallowed by the final
    [catch]).  An equation between components therefore says nothing about
    the title. *)
Definition fetch_resolved (i : nat) (data : Json) (c : Component) : Component :=
  match fetches c !! i with
  | Some ctx =>
      if codeHashChanged ctx then c
      else if js_truthy data then
        match js_get data "abi" with
        | Some abi =>
            if js_truthy abi then
              {| form := set_everscanAbi (Some (JSON_stringify abi)) (form c);
                 cleanup := cleanup c; fetches := fetches c |}
            else c
        | None => c
        end
      else c
  | None => c
  end.

(** Setting the component up: the watcher is immediate. *)
Definition mount (ls : gmap string string) (codeHash address : option string) : Component :=
  watch_callback codeHash address {| form := setup ls; cleanup := None; fetches := [] |}.

(** ** Events *)

(** What can happen to a mounted form: a handler bound in the template, a
    [v-model] update, the continuation of an awaited load, a change of props,
    a registry response. *)
Inductive FormEvent : Type :=
| SelectAbi (name : string)
| DeleteAbi (name : string)
| OpenModal (type : LoadAbiType)
| CloseModal
| InputAbiName (value : string)
| InputAbiFilter (value : string)
| ChangeFile (files : option (list File))
| ChangeZipFile (files : option (list File))
| ChangeText (value : string)
| ChangeLink (value : string)
| ChangeZipLink (value : string)
| ToggleAbiSelector
| HideAbiSelector
| SubmitEverscanAbi
| SubmitStart
| SubmitResume (loaded : completion string)
| SubmitZipStart
| SubmitZipResume (loaded : completion ZipContent).

Definition handle (ev : FormEvent) : Form () :=
  match ev with
  | SelectAbi name => onSelectAbi name
  | DeleteAbi name => onDeleteAbi name
  | OpenModal type => modify (set_modalType (Some type))
  | CloseModal => closeModal
  | InputAbiName value => modify (set_abiNameInput value)
  | InputAbiFilter value => modify (set_abiFilter value)
  | ChangeFile files => onChangeFile files
  | ChangeZipFile files => onChangeZipFile files
  | ChangeText value => onChangeText value
  | ChangeLink value => onChangeLink value
  | ChangeZipLink value => onChangeZipLink value
  | ToggleAbiSelector => onToggleAbiSelector
  | HideAbiSelector => onHideAbiSelector
  | SubmitEverscanAbi => onSubmitEverscanAbi
  | SubmitStart => do _ <- onSubmit_start; eff_ret ()
  | SubmitResume loaded => onSubmit_resume loaded
  | SubmitZipStart => do _ <- onSubmitZip_start; eff_ret ()
  | SubmitZipResume loaded => onSubmitZip_resume loaded
  end.

Definition form_event (ev : FormEvent) (c : Component) : Component :=
  {| form := exec (handle ev) (form c); cleanup := cleanup c; fetches := fetches c |}.

(** The components that can arise: a mounted one, after any sequence of form
    events, prop changes and registry responses. *)
Inductive reachable : Component → Prop :=
| reachable_mount ls codeHash address :
    reachable (mount ls codeHash address)
| reachable_form ev c :
    reachable c → reachable (form_event ev c)
| reachable_props codeHash address c :
    reachable c → reachable (props_changed codeHash address c)
| reachable_response i data c :
    reachable c → reachable (fetch_resolved i data c).

(** ** Vocabulary for the properties *)

(** An entry passes validation when [checkAbi] returns on its text. *)
Definition valid_entry (abiFile : AbiFile) : Prop :=
  checkAbi (text abiFile) = Returns ().

(** The error [processZipContent] throws for an entry that fails validation
    with [err]. *)
Definition processing_error (abiFile : AbiFile) (err : JsExn) : JsExn :=
  JsError ("Processing error for '" +:+ filename abiFile +:+ "' file. Internal "
             +:+ exn_toString err).

(** The storage after [setItem] has run for each entry in turn. *)
Definition store_all (parent : string) (entries : list AbiFile)
    (ls : gmap string string) : gmap string string :=
  foldl (λ m abiFile, <[storage_key parent abiFile := text abiFile]> m) ls entries.

(** The list [processZipContent] returns. *)
Definition stored_list (parent : string) (entries : list AbiFile) : list StoredAbi :=
  map (λ abiFile, {| storageKey := storage_key parent abiFile;
                     storedText := text abiFile |}) entries.

(** A run has been cancelled when its flag is set and its controller has
    aborted. *)
Definition cancelled (ctx : FetchCtx) : Prop :=
  codeHashChanged ctx = true ∧ aborted ctx = true.

(** What holds of every reachable component: every run but the registered one
    is cancelled, [everscanAbi] is only set while a run is registered, and the
    registered run exists. *)
Definition watcher_inv (c : Component) : Prop :=
  (∀ i ctx, fetches c !! i = Some ctx → cleanup c ≠ Some i → cancelled ctx) ∧
  (is_Some (everscanAbi (form c)) → is_Some (cleanup c)) ∧
  (∀ i, cleanup c = Some i → i < length (fetches c)).


(** ** The template

    What the template computes from the state. *)


(** [:disabled="inProgress || everscanAbi == null"] of the 'From Everscan'
    button. *)
Definition everscan_disabled (s : FormState) : bool :=
  inProgress s || bool_decide (everscanAbi s = None).


(** ** Further vocabulary *)

(** A run is live while its flag is clear and its controller has not
    aborted. *)
Definition live (ctx : FetchCtx) : Prop :=
  codeHashChanged ctx = false ∧ aborted ctx = false.

(** One for a property that is present, zero for an absent one. *)
Definition given {A} (o : option A) : nat :=
  match o with
  | Some _ => 1
  | None => 0
  end.

(** The number of sources [fieldsInput.value] holds, a zip file and a zip
    link counting separately. *)
Definition sources_given (fields : FieldsInput) : nat :=
  given (input_file fields) + given (input_text fields) + given (input_link fields) +
  match input_zip fields with
  | Some z => given (zip_file z) + given (zip_link z)
  | None => 0
  end.

(** The events that happen to a component while its props stay as they are. *)
Inductive props_unchanged : Component → Component → Prop :=
| props_unchanged_refl c :
    props_unchanged c c
| props_unchanged_form ev c c' :
    props_unchanged c c' → props_unchanged c (form_event ev c')
| props_unchanged_response i data c c' :
    props_unchanged c c' → props_unchanged c (fetch_resolved i data c').

End form.

(** * The serializer workspace ([SerializerWorkspace]) *)

Module SerializerWorkspace.
Section workspace.
Context `{!Core, !JsonCodec}.

(** [const prettyPrint = (text: string) => ...] *)
Definition prettyPrint (text : string) : string :=
  match JSON_parse text with
  | Some parsed => JSON_stringify_indent parsed 4
  | None => text
  end.

(** The value of [decodedAbi] when it is not [null]. *)
Record DecodedAbi : Type := {
  handler : AbiEntityHandler;
  data : AbiEntity;
}.

Definition prepareHandler (h : AbiEntityHandler) : DecodedAbi :=
  {| handler := h; data := handler_data h |}.

(** [type SerializerWorkspaceState] *)
Record SerializerWorkspaceState : Type := {
  abiInput : string;
  decodedAbi : option DecodedAbi;
  error : option string;
}.

(** The component: its React state and the handlers on which [free()] has
    been called, in order. *)
Record Workspace : Type := {
  state : SerializerWorkspaceState;
  freed : list AbiEntityHandler;
}.

Definition Method (A : Type) : Type := Eff Workspace A.

(** [this.setState(update, callback)]: the update is merged into the state
    and the callback runs once it has been applied. *)
Definition setState (update : SerializerWorkspaceState → SerializerWorkspaceState)
    (callback : Method ()) : Method () :=
  do _ <- modify (λ w, {| state := update (state w); freed := freed w |});
  callback.

(** [handler.free()] *)
Definition free (h : AbiEntityHandler) : Method () :=
  modify (λ w, {| state := state w; freed := freed w ++ [h] |}).

Definition clear (callback : Method ()) : Method () :=
  do decoded <- gets (λ w, decodedAbi (state w));
  setState
    (λ st, {| abiInput := abiInput st; decodedAbi := None; error := None |})
    (do _ <- match decoded with
             | Some d => free (handler d)
             | None => eff_ret ()
             end;
     callback).

Definition setNewAbi (h : AbiEntityHandler) : Method () :=
  clear
    (setState
       (λ st, {| abiInput := abiInput st; decodedAbi := Some (prepareHandler h);
                 error := None |})
       (eff_ret ())).

Definition handleAbi (input : string) : Method () :=
  do _ <- setState
            (λ st, {| abiInput := prettyPrint input; decodedAbi := decodedAbi st;
                      error := error st |})
            (eff_ret ());
  try_catch
    (do customAbi <- lift (parseAbi input);
     setNewAbi customAbi)
    (λ e,
       clear
         (setState
            (λ st, {| abiInput := abiInput st; decodedAbi := decodedAbi st;
                      error := Some (exn_toString e) |})
            (eff_ret ()))).

(** The [onChange] and [onPaste] handlers of the textarea. *)
Definition onChange (value : string) : Method () := handleAbi value.
Definition onPaste (pastedText : string) : Method () := handleAbi (prettyPrint pastedText).

(** The constructor; it throws when [core.parseAbi('')] does. *)
Definition constructor : completion Workspace :=
  match parseAbi "" with
  | Returns h =>
      Returns {| state := {| abiInput := ""; decodedAbi := Some (prepareHandler h);
                             error := None |};
                 freed := [] |}
  | Throws e => Throws e
  end.

(** The handler held before a call, as the list of what [clear] frees. *)
Definition held (w : Workspace) : list AbiEntityHandler :=
  match decodedAbi (state w) with
  | Some d => [handler d]
  | None => []
  end.

(** The workspace after [handleAbi] has run on each input in turn. *)
Definition handleAll (inputs : list string) (w : Workspace) : Workspace :=
  foldl (λ w input, exec (handleAbi input) w) w inputs.

(** The handler [core.parseAbi] returns for an input, if it returns. *)
Definition parsed_handler (input : string) : option AbiEntityHandler :=
  match parseAbi input with
  | Returns h => Some h
  | Throws _ => None
  end.

(** The handlers obtained for a sequence of inputs, in order. *)
Definition parsed_handlers (inputs : list string) : list AbiEntityHandler :=
  omap parsed_handler inputs.

End workspace.
End SerializerWorkspace.

(** * A concrete environment

    Small executable stand-ins for the interfaces, on which the component can
    be run: a core that accepts texts starting with an opening brace, JSON
    values as a syntax tree, byte-wise string comparison, files that carry
    their content, and a network that knows two addresses. *)

Module Demo.

Definition starts_with_brace (s : string) : bool :=
  match s with
  | String "{" _ => true
  | _ => false
  end.

#[export] Instance core : Core := {|
  AbiEntityHandler := nat;
  AbiEntity := string;
  checkAbi s :=
    if starts_with_brace s then Returns () else Throws (JsThrown "Invalid ABI");
  parseAbi s :=
    if bool_decide (s = "") || starts_with_brace s then Returns (String.length s)
    else Throws (JsError "unknown signature");
  handler_data h := "entity";
|}.

(** JSON values; numbers are integral. *)
#[warnings="-register-all"]
Inductive DJson : Type :=
| DNull
| DBool (b : bool)
| DNum (n : Z)
| DStr (s : string)
| DArr (items : list DJson)
| DObj (fields : list (string * DJson)).

Definition dquote : string := String "034" EmptyString.

Definition quoted (s : string) : string := dquote +:+ s +:+ dquote.

Fixpoint join (sep : string) (l : list string) : string :=
  match l with
  | [] => ""
  | [x] => x
  | x :: l' => x +:+ sep +:+ join sep l'
  end.

(** [JSON.stringify(v)] on strings free of quotes and control characters. *)
Fixpoint stringify (v : DJson) : string :=
  match v with
  | DNull => "null"
  | DBool true => "true"
  | DBool false => "false"
  | DNum n => pretty n
  | DStr s => quoted s
  | DArr items => "[" +:+ join "," (map stringify items) +:+ "]"
  | DObj fields =>
      "{" +:+ join "," (map (λ kv, let '(k, x) := kv in quoted k +:+ ":" +:+ stringify x)
                            fields) +:+ "}"
  end.

(** [!!v]: [null], [false], [0] and [''] are falsy. *)
Definition truthy (v : DJson) : bool :=
  match v with
  | DNull => false
  | DBool b => b
  | DNum n => bool_decide (n ≠ 0%Z)
  | DStr s => bool_decide (s ≠ "")
  | DArr _ | DObj _ => true
  end.

Fixpoint own_property (key : string) (fields : list (string * DJson)) : option DJson :=
  match fields with
  | [] => None
  | (k, x) :: rest => if decide (k = key) then Some x else own_property key rest
  end.

(** [v[key]] for a key that is not a built-in property: an own property of
    an object, [undefined] otherwise. *)
Definition get (v : DJson) (key : string) : option DJson :=
  match v with
  | DObj fields => own_property key fields
  | _ => None
  end.

#[export] Instance json_value : JsonValue := {|
  Json := DJson;
  js_truthy := truthy;
  js_get := get;
  JSON_stringify := stringify;
|}.

(** The literal fragment of JSON, for the workspace: [null], [true] and
    [false] between optional white space. *)
Inductive Literal : Type := LNull | LTrue | LFalse.

Definition is_json_space (a : ascii) : bool :=
  match a with
  | " " | "009" | "010" | "013" => true
  | _ => false
  end%char.

Fixpoint drop_space (s : string) : string :=
  match s with
  | String a s' => if is_json_space a then drop_space s' else s
  | EmptyString => EmptyString
  end.

Definition trim (s : string) : string :=
  String.rev (drop_space (String.rev (drop_space s))).

Definition parse_literal (s : string) : option Literal :=
  let t := trim s in
  if bool_decide (t = "null") then Some LNull
  else if bool_decide (t = "true") then Some LTrue
  else if bool_decide (t = "false") then Some LFalse
  else None.

Definition print_literal (l : Literal) (indent : nat) : string :=
  match l with
  | LNull => "null"
  | LTrue => "true"
  | LFalse => "false"
  end.

#[export] Instance json_codec : JsonCodec := {|
  Parsed := Literal;
  JSON_parse := parse_literal;
  JSON_stringify_indent := print_literal;
|}.

Definition compare_bytes (x y : string) : Z :=
  match String.compare x y with
  | Lt => (-1)%Z
  | Eq => 0%Z
  | Gt => 1%Z
  end.

#[export] Instance runtime : Runtime := {|
  collator_compare := compare_bytes;
  localeCompare_numeric_case := compare_bytes;
  now_toISOString := "2024-05-17T10:20:30.000Z";
|}.

(** File contents: a text, or an archive given by its entries. *)
Inductive DemoBytes : Type :=
| Plain (content : string)
| Archive (entries : list (string * string)).

Record DemoFile : Type := {
  demo_name : string;
  demo_bytes : DemoBytes;
}.

Definition demo_fetch (url : string) : completion DemoBytes :=
  if bool_decide (url = "https://example.org/wallet.abi.json")
  then Returns (Plain "{ABI version: 2}")
  else if bool_decide (url = "https://example.org/contracts.zip")
  then Returns (Archive [("Wallet.abi.json", "{wallet}"); ("Root.abi.json", "{root}")])
  else Throws (JsThrown "TypeError: Failed to fetch").

#[export] Instance web_io : WebIO := {|
  File := DemoFile;
  Bytes := DemoBytes;
  URL := string;
  file_name := demo_name;
  new_File b name := {| demo_name := name; demo_bytes := b |};
  readAsText f :=
    match demo_bytes f with
    | Plain content => Returns (Some content)
    | Archive _ => Throws (JsThrown "NotReadableError")
    end;
  file_arrayBuffer f := Returns (demo_bytes f);
  new_URL s :=
    if String.prefix "https://" s then Returns s
    else Throws (JsThrown "TypeError: Invalid URL");
  URL_toString u := u;
  fetch_text url :=
    and_then (demo_fetch url) (λ b,
      match b with
      | Plain content => Returns content
      | Archive _ => Returns "PK"
      end);
  fetch_arrayBuffer := demo_fetch;
  unzipSync b :=
    match b with
    | Archive entries => Returns (map (λ e, (e.1, Plain e.2)) entries)
    | Plain _ => Throws (JsThrown "invalid zip data")
    end;
|}.

#[export] Instance common : Common := {|
  rewriteAbiUrl u := u;
  convertAddress a := a;
|}.

(** ** Inputs on which the components are run *)

(** A form over an empty storage into which a valid ABI has been pasted. *)
Definition pasted_form : FormState := exec (onChangeText "{ABI}") (setup ∅).

(** Two entries whose names agree up to the first dot. *)
Definition wallet_abi : AbiFile := {| filename := "Wallet.abi.json"; text := "{first}" |}.
Definition wallet_json : AbiFile := {| filename := "Wallet.json"; text := "{second}" |}.
Definition clashing_archive : ZipContent :=
  {| archive_filename := "contracts.zip"; files := [wallet_abi; wallet_json] |}.

(** An archive whose entries get distinct keys. *)
Definition root_abi : AbiFile := {| filename := "Root.abi.json"; text := "{root}" |}.
Definition plain_archive : ZipContent :=
  {| archive_filename := "contracts.zip"; files := [root_abi; wallet_abi] |}.

(** A form mounted with both props, and the same form once the registry has
    answered with an ABI. *)
Definition mounted : Component := mount ∅ (Some "84dafa44") (Some "0:abc").
Definition registry_answer : Json := DObj [("abi", DObj [("version", DNum 2)])].
Definition answered : Component := fetch_resolved 0 registry_answer mounted.

(** An answer whose [abi] field is the empty string. *)
Definition empty_abi_answer : Json := DObj [("abi", DStr "")].

(** A link to an ABI the network knows. *)
Definition linked_fields : FieldsInput :=
  {| input_file := None; input_text := None;
     input_link := Some "https://example.org/wallet.abi.json"; input_zip := None |}.

(** The workspace as constructed: it holds the handler of the empty input. *)
Definition fresh_workspace : SerializerWorkspace.Workspace :=
  {| SerializerWorkspace.state :=
       {| SerializerWorkspace.abiInput := "";
          SerializerWorkspace.decodedAbi := Some (SerializerWorkspace.prepareHandler 0);
          SerializerWorkspace.error := None |};
     SerializerWorkspace.freed := [] |}.

(** ** Further stand-ins and inputs *)

(** Lower case of the letters A to Z. *)
Definition lower_ascii (a : ascii) : ascii :=
  let n := nat_of_ascii a in
  if (65 <=? n) && (n <=? 90) then ascii_of_nat (n + 32) else a.

Fixpoint lower (s : string) : string :=
  match s with
  | EmptyString => EmptyString
  | String a s' => String (lower_ascii a) (lower s')
  end.

#[export] Instance string_case : StringCase := {|
  toLowerCase := lower;
|}.


(** The mounted form after a link and then a text have been entered. *)
Definition retyped : Component :=
  form_event (ChangeText "{ABI}")
    (form_event (ChangeLink "https://example.org/wallet.abi.json") mounted).

(** The answered form after its code hash has changed. *)
Definition rehashed : Component := props_changed (Some "c0ffee") (Some "0:abc") answered.

(** The answered form after its address has become [null], and a late answer
    of the first run. *)
Definition detached : Component :=
  fetch_resolved 0 registry_answer (props_changed (Some "84dafa44") None answered).

(** An archive whose second entry the core rejects. *)
Definition broken_abi : AbiFile := {| filename := "Broken.abi.json"; text := "oops" |}.
Definition broken_archive : ZipContent :=
  {| archive_filename := "contracts.zip"; files := [root_abi; broken_abi; wallet_abi] |}.

(** The inputs of the zip modal with the link of the archive the network
    knows, and that archive as loaded. *)
Definition zip_link_fields : FieldsInput :=
  {| input_file := None; input_text := None; input_link := None;
     input_zip := Some {| zip_file := None;
                          zip_link := Some "https://example.org/contracts.zip" |} |}.
Definition loaded_archive : ZipContent :=
  {| archive_filename := "contracts.zip";
     files := [ {| filename := "Root.abi.json"; text := "{root}" |};
                {| filename := "Wallet.abi.json"; text := "{wallet}" |} ] |}.


End Demo.

(** * Properties of the sort *)

Section js_sort_properties.
Context {A : Type} (cmp : A → A → Z).

Lemma sort_insert_Permutation (x : A) (l : list A) : sort_insert cmp x l ≡ₚ x :: l.
Proof.
  induction l as [|y l IH]; simpl; [done|].
  case_decide; [done|]. rewrite IH. apply Permutation_swap.
Qed.

Lemma js_sort_Permutation (l : list A) : js_sort cmp l ≡ₚ l.
Proof.
  induction l as [|x l IH]; simpl; [done|].
  rewrite sort_insert_Permutation. by f_equiv.
Qed.

Lemma js_sort_elem_of (x : A) (l : list A) : x ∈ js_sort cmp l ↔ x ∈ l.
Proof. by rewrite js_sort_Permutation. Qed.

Lemma js_sort_length (l : list A) : length (js_sort cmp l) = length l.
Proof. by rewrite js_sort_Permutation. Qed.

Lemma sort_insert_Sorted (x : A) (l : list A) :
  (∀ a b, cmp_le cmp a b ∨ cmp_le cmp b a) →
  Sorted (cmp_le cmp) l → Sorted (cmp_le cmp) (sort_insert cmp x l).
Proof.
  intros Htot. induction 1 as [|y l Hs IH Hhd]; simpl.
  - by repeat constructor.
  - case_decide as Hxy.
    + constructor; [by constructor|]. by constructor.
    + constructor; [done|].
      assert (cmp_le cmp y x) as Hyx by (destruct (Htot x y); [done|done]).
      destruct Hhd as [|z l' Hyz]; simpl.
      * by constructor.
      * case_decide; by constructor.
Qed.

Lemma js_sort_Sorted (l : list A) :
  (∀ a b, cmp_le cmp a b ∨ cmp_le cmp b a) → Sorted (cmp_le cmp) (js_sort cmp l).
Proof.
  intros Htot. induction l as [|x l IH]; simpl; [constructor|].
  by apply sort_insert_Sorted.
Qed.

End js_sort_properties.

(** * Properties of the form *)

(** Unfolds the effect combinators so that a method becomes a function on
    states. *)
Ltac eff_unfold :=
  unfold exec, Form, eff_bind, eff_ret, gets, modify, lift, throw,
    try_catch, try_finally in *.

Section form_properties.
Context `{!Core, !JsonValue, !Runtime, !WebIO, !Common}.

(** C9.  [onSelectAbi(name)] always emits ['change'] with
    [localStorage.getItem(name)]: when the key exists [selectedAbi] becomes
    [name] and the stored text is emitted; when it is absent [selectedAbi]
    becomes [undefined] and the payload is [null] ([None]), although the
    event is declared to carry a string.  The storage is not touched. *)
Theorem onSelectAbi_emits_lookup (s : FormState) (name : string) :
  let s' := exec (onSelectAbi name) s in
  (∀ text, localStorage s !! name = Some text →
     selectedAbi s' = Some name ∧ emitted s' = emitted s ++ [Some text]) ∧
  (localStorage s !! name = None →
     selectedAbi s' = None ∧ emitted s' = emitted s ++ [None]) ∧
  length (emitted s') = S (length (emitted s)) ∧
  localStorage s' = localStorage s.
Proof.
  unfold onSelectAbi, localStorage_getItem, emit_change. eff_unfold. simpl.
  split_and!.
  - by intros text ->.
  - by intros ->.
  - rewrite length_app. simpl. lia.
  - done.
Qed.


(** C6.  [loadAbiText] returns the pasted text when [fieldsInput.text] is
    set; otherwise, when [fieldsInput.link] is set (and is a URL), whatever
    fetching the rewritten URL gives; otherwise, when [fieldsInput.file] is
    set, the file read as text, the empty string when the read has no
    result; and with none of the three it throws
    [Error('No ABI input specified')]. *)
Theorem loadAbiText_source_priority (fields : FieldsInput) :
  (∀ pasted, input_text fields = Some pasted →
     loadAbiText fields = Returns pasted) ∧
  (input_text fields = None →
     ∀ l u, input_link fields = Some l → new_URL l = Returns u →
       loadAbiText fields = fetch_text (URL_toString (rewriteAbiUrl u))) ∧
  (input_text fields = None → input_link fields = None →
     ∀ f, input_file fields = Some f →
       (∀ content, readAsText f = Returns (Some content) →
          loadAbiText fields = Returns content) ∧
       (readAsText f = Returns None → loadAbiText fields = Returns "")) ∧
  (input_text fields = None → input_link fields = None → input_file fields = None →
     loadAbiText fields = Throws (JsError "No ABI input specified")).
Proof.
  unfold loadAbiText. split_and!.
  - by intros pasted ->.
  - intros -> l u -> Hu. by rewrite Hu.
  - intros -> -> f ->. split.
    + intros content Hr. by rewrite Hr.
    + intros Hr. by rewrite Hr.
  - by intros -> -> ->.
Qed.

(** What the [finally] block guarantees. *)
Lemma try_finally_inProgress {A} (m : Form A) (s : FormState) :
  inProgress (exec (try_finally m (modify (set_inProgress false))) s) = false.
Proof. eff_unfold. by destruct (m s). Qed.

(** The outcome of [onSubmit_resume] in its three cases. *)
Lemma onSubmit_resume_load_failed (s : FormState) (e : JsExn) :
  exec (onSubmit_resume (Throws e)) s
  = set_inProgress false (set_error (Some (exn_toString e)) s).
Proof. reflexivity. Qed.

Lemma onSubmit_resume_invalid (s : FormState) (loaded : string) (e : JsExn) :
  checkAbi loaded = Throws e →
  exec (onSubmit_resume (Returns loaded)) s
  = set_inProgress false (set_error (Some (exn_toString e)) s).
Proof. intros Hc. unfold onSubmit_resume. eff_unfold. by rewrite Hc. Qed.

Lemma onSubmit_resume_valid (s : FormState) (loaded : string) :
  checkAbi loaded = Returns () →
  exec (onSubmit_resume (Returns loaded)) s
  = let ls := <[abiNameInput s := loaded]> (localStorage s) in
    {| modalType := None; abiNameInput := abiNameInput s; fieldsInput := no_fields;
       everscanAbi := everscanAbi s; error := None; storedAbi := sorted_keys ls;
       abiFilter := abiFilter s; selectedAbi := Some (abiNameInput s);
       abiSelectorVisible := abiSelectorVisible s; inProgress := false;
       localStorage := ls; emitted := emitted s ++ [Some loaded] |}.
Proof. intros Hc. unfold onSubmit_resume. eff_unfold. by rewrite Hc. Qed.

Lemma onSubmit_idle (s : FormState) :
  inProgress s = false →
  exec onSubmit s
  = exec (onSubmit_resume (loadAbiText (fieldsInput s))) (set_inProgress true s).
Proof.
  intros Hp. unfold onSubmit, onSubmit_start. eff_unfold. by rewrite Hp.
Qed.

(** C1.  [onSubmit] on an idle form.  When the load returns a text on which
    [checkAbi] returns, the text is written to [localStorage] under
    [abiNameInput] and emitted through ['change'].  When the load or the
    validation throws [e], [localStorage], [storedAbi], [selectedAbi] and the
    emitted events are as before and [error] is [e.toString()].  So a write
    or an emission only happens after [checkAbi] has returned on the text. *)
Theorem onSubmit_persists_only_valid (s : FormState) :
  inProgress s = false →
  let s' := exec onSubmit s in
  let loaded := loadAbiText (fieldsInput s) in
  (∀ loadedText, loaded = Returns loadedText → checkAbi loadedText = Returns () →
     localStorage s' = <[abiNameInput s := loadedText]> (localStorage s) ∧
     emitted s' = emitted s ++ [Some loadedText]) ∧
  (∀ e, loaded = Throws e ∨ (∃ loadedText, loaded = Returns loadedText ∧ checkAbi loadedText = Throws e) →
     localStorage s' = localStorage s ∧ storedAbi s' = storedAbi s ∧
     selectedAbi s' = selectedAbi s ∧ emitted s' = emitted s ∧
     error s' = Some (exn_toString e)) ∧
  (localStorage s' ≠ localStorage s ∨ emitted s' ≠ emitted s →
     ∃ loadedText, loaded = Returns loadedText ∧ checkAbi loadedText = Returns ()).
Proof.
  intros Hp s' loaded. subst s'. rewrite (onSubmit_idle s Hp). fold loaded.
  split_and!.
  - intros t -> Hc. by rewrite onSubmit_resume_valid.
  - intros e [-> | (t & -> & Hc)].
    + by rewrite onSubmit_resume_load_failed.
    + by rewrite (onSubmit_resume_invalid _ _ e).
  - destruct loaded as [t|e].
    + destruct (checkAbi t) as [[]|e] eqn:Hc; [eauto|].
      rewrite (onSubmit_resume_invalid _ _ e Hc). simpl. intros [?|?]; done.
    + rewrite onSubmit_resume_load_failed. simpl. intros [?|?]; done.
Qed.


(** ** The stored keys *)

Lemma elem_of_Object_keys (ls : gmap string string) (k : string) :
  k ∈ Object_keys ls ↔ is_Some (ls !! k) ∧ enumerable k = true.
Proof.
  unfold Object_keys. rewrite list_elem_of_filter, list_elem_of_fmap. split.
  - intros [Hown ([k' v] & -> & Hin)]. apply elem_of_map_to_list in Hin.
    split; [by eexists|done].
  - intros [[v Hv] Hown]. split; [done|]. exists (k, v). split; [done|].
    by apply elem_of_map_to_list.
Qed.


(** [getAllAbis()] lists each key of the storage once. *)
Lemma sorted_keys_spec (ls : gmap string string) :
  (∀ k, k ∈ sorted_keys ls ↔ is_Some (ls !! k) ∧ enumerable k = true) ∧
  NoDup (sorted_keys ls) ∧
  ((∀ a b, cmp_le collator_compare a b ∨ cmp_le collator_compare b a) →
     Sorted (cmp_le collator_compare) (sorted_keys ls)).
Proof.
  unfold sorted_keys. split_and!.
  - intros k. by rewrite js_sort_elem_of, elem_of_Object_keys.
  - rewrite js_sort_Permutation. apply NoDup_filter, NoDup_fst_map_to_list.
  - intros Htot. by apply js_sort_Sorted.
Qed.

(** ** Archives *)

Lemma set_localStorage_same (s : FormState) : set_localStorage (localStorage s) s = s.
Proof. by destruct s. Qed.

Lemma check_entry_valid (abiFile : AbiFile) (s : FormState) :
  valid_entry abiFile → check_entry abiFile s = (Returns (), s).
Proof. unfold valid_entry, check_entry. eff_unfold. by intros ->. Qed.

Lemma check_entry_invalid (abiFile : AbiFile) (err : JsExn) (s : FormState) :
  checkAbi (text abiFile) = Throws err →
  check_entry abiFile s = (Throws (processing_error abiFile err), s).
Proof. unfold check_entry. eff_unfold. by intros ->. Qed.

Lemma forEach_check_valid (entries : list AbiFile) (s : FormState) :
  Forall valid_entry entries → forEach check_entry entries s = (Returns (), s).
Proof.
  induction 1 as [|f l Hf Hl IH]; [done|].
  simpl. unfold eff_bind. by rewrite check_entry_valid.
Qed.

Lemma forEach_check_invalid (pre post : list AbiFile) (abiFile : AbiFile)
    (err : JsExn) (s : FormState) :
  Forall valid_entry pre → checkAbi (text abiFile) = Throws err →
  forEach check_entry (pre ++ abiFile :: post) s
  = (Throws (processing_error abiFile err), s).
Proof.
  intros Hpre Herr. induction Hpre as [|f l Hf Hl IH]; simpl; unfold eff_bind.
  - by rewrite (check_entry_invalid _ err).
  - by rewrite check_entry_valid.
Qed.

(** Validation either accepts every entry or stops at the first that fails. *)
Lemma entries_valid_or_first_invalid (entries : list AbiFile) :
  Forall valid_entry entries ∨
  ∃ pre abiFile post err,
    entries = pre ++ abiFile :: post ∧ Forall valid_entry pre ∧
    checkAbi (text abiFile) = Throws err.
Proof.
  induction entries as [|f l IH]; [by left|].
  destruct (checkAbi (text f)) as [[]|err] eqn:Hf.
  - destruct IH as [Hl | (pre & g & post & err & -> & Hpre & Hg)].
    + left. by constructor.
    + right. exists (f :: pre), g, post, err. split_and!; [done| |done].
      by constructor.
  - right. by exists [], f, l, err.
Qed.

Lemma map_eff_store_entry (parent : string) (entries : list AbiFile) (s : FormState) :
  map_eff (store_entry parent) entries s
  = (Returns (stored_list parent entries),
     set_localStorage (store_all parent entries (localStorage s)) s).
Proof.
  revert s. induction entries as [|f l IH]; intros s; simpl.
  - unfold eff_ret. by rewrite set_localStorage_same.
  - unfold store_entry, localStorage_setItem. eff_unfold. by rewrite IH.
Qed.

Lemma store_all_cons (parent : string) (abiFile : AbiFile) (entries : list AbiFile)
    (ls : gmap string string) :
  store_all parent (abiFile :: entries) ls
  = store_all parent entries (<[storage_key parent abiFile := text abiFile]> ls).
Proof. reflexivity. Qed.

Lemma store_all_app (parent : string) (l1 l2 : list AbiFile) (ls : gmap string string) :
  store_all parent (l1 ++ l2) ls = store_all parent l2 (store_all parent l1 ls).
Proof. apply foldl_app. Qed.

(** Keys written later do not disturb a key they differ from. *)
Lemma store_all_other (parent key : string) (entries : list AbiFile)
    (ls : gmap string string) :
  Forall (λ g, storage_key parent g ≠ key) entries →
  store_all parent entries ls !! key = ls !! key.
Proof.
  revert ls. induction entries as [|f l IH]; intros ls Hne; [done|].
  inversion_clear Hne as [|?? Hf Hl]. rewrite store_all_cons, IH by done.
  by rewrite lookup_insert_ne.
Qed.

(** A key holds the text of the last entry written under it. *)
Lemma store_all_last (parent : string) (pre post : list AbiFile) (abiFile : AbiFile)
    (ls : gmap string string) :
  Forall (λ g, storage_key parent g ≠ storage_key parent abiFile) post →
  store_all parent (pre ++ abiFile :: post) ls !! storage_key parent abiFile
  = Some (text abiFile).
Proof.
  intros Hpost. rewrite store_all_app, store_all_cons, store_all_other by done.
  by rewrite lookup_insert_eq.
Qed.

Lemma processZipContent_empty (zipContent : ZipContent) (s : FormState) :
  files zipContent = [] →
  processZipContent zipContent s
  = (Throws (JsError "Provided zip archive is empty"), s).
Proof. unfold processZipContent. by intros ->. Qed.

Lemma processZipContent_invalid (zipContent : ZipContent) (pre post : list AbiFile)
    (abiFile : AbiFile) (err : JsExn) (s : FormState) :
  files zipContent = pre ++ abiFile :: post →
  Forall valid_entry pre → checkAbi (text abiFile) = Throws err →
  processZipContent zipContent s = (Throws (processing_error abiFile err), s).
Proof.
  intros Hfiles Hpre Herr. unfold processZipContent. rewrite Hfiles.
  rewrite bool_decide_eq_false_2 by (destruct pre; simpl; lia).
  unfold eff_bind. by rewrite (forEach_check_invalid _ _ _ err).
Qed.

Lemma processZipContent_valid (zipContent : ZipContent) (s : FormState) :
  files zipContent ≠ [] → Forall valid_entry (files zipContent) →
  processZipContent zipContent s
  = (Returns (stored_list (parentFormattedFilename zipContent) (files zipContent)),
     set_localStorage
       (store_all (parentFormattedFilename zipContent) (files zipContent)
          (localStorage s)) s).
Proof.
  intros Hne Hall. unfold processZipContent.
  rewrite bool_decide_eq_false_2 by (by destruct (files zipContent)).
  unfold eff_bind. rewrite forEach_check_valid by done.
  apply map_eff_store_entry.
Qed.

(** [processZipContent] either throws and leaves everything as it was, or
    stores every entry. *)
Lemma processZipContent_cases (zipContent : ZipContent) (s : FormState) :
  (∃ e, processZipContent zipContent s = (Throws e, s)) ∨
  (files zipContent ≠ [] ∧ Forall valid_entry (files zipContent)).
Proof.
  destruct (files zipContent) as [|f l] eqn:Hfiles.
  { left. eexists. by apply processZipContent_empty. }
  destruct (entries_valid_or_first_invalid (f :: l))
    as [Hall | (pre & g & post & err & Heq & Hpre & Hg)].
  - by right.
  - left. eexists. eapply processZipContent_invalid; [|done..]. by rewrite Hfiles.
Qed.


(** C2, as amended.  [processZipContent] validates before it stores.  An
    archive without entries: it throws
    [Error('Provided zip archive is empty')].  A first entry on which
    [checkAbi] throws: it throws an error naming that entry's filename, and
    the state, [localStorage] included, is as before.  Otherwise it returns
    the (key, text) pairs of the entries in their order, the key of an entry
    being [[<archive name up to its first dot>_<date>] <entry name up to its
    first dot>], and the storage is the old one after one [setItem] per
    entry in that order: a key holds the text of the last entry written
    under it, and keys of no entry keep what they had. *)
Theorem processZipContent_validates_then_stores (zipContent : ZipContent) (s : FormState) :
  let entries := files zipContent in
  let parent :=
    split_shift "." (archive_filename zipContent) +:+ "_"
      +:+ split_shift "T" now_toISOString in
  let key abiFile := "[" +:+ parent +:+ "] " +:+ split_shift "." (filename abiFile) in
  (entries = [] →
     processZipContent zipContent s
     = (Throws (JsError "Provided zip archive is empty"), s)) ∧
  (∀ pre abiFile post err,
     entries = pre ++ abiFile :: post →
     Forall valid_entry pre → checkAbi (text abiFile) = Throws err →
     processZipContent zipContent s
     = (Throws (JsError ("Processing error for '" +:+ filename abiFile
                           +:+ "' file. Internal " +:+ exn_toString err)), s)) ∧
  (entries ≠ [] → Forall valid_entry entries →
     ∃ ls',
       processZipContent zipContent s
       = (Returns (map (λ abiFile, {| storageKey := key abiFile;
                                      storedText := text abiFile |}) entries),
          set_localStorage ls' s) ∧
       ls' = foldl (λ m abiFile, <[key abiFile := text abiFile]> m) (localStorage s) entries ∧
       (∀ pre abiFile post,
          entries = pre ++ abiFile :: post →
          Forall (λ later, key later ≠ key abiFile) post →
          ls' !! key abiFile = Some (text abiFile)) ∧
       (∀ k, Forall (λ abiFile, key abiFile ≠ k) entries → ls' !! k = localStorage s !! k)).
Proof.
  intros entries parent key. split_and!.
  - apply processZipContent_empty.
  - intros pre abiFile post err. apply processZipContent_invalid.
  - intros Hne Hall. eexists. split_and!.
    + by apply processZipContent_valid.
    + done.
    + intros pre abiFile post Heq Hpost. subst entries. rewrite Heq.
      by apply store_all_last.
    + intros k Hk. by apply store_all_other.
Qed.

(** ** The two submit handlers *)

Lemma onSubmit_busy (s : FormState) :
  inProgress s = true → onSubmit s = (Returns (), s).
Proof. intros Hp. unfold onSubmit, onSubmit_start. eff_unfold. by rewrite Hp. Qed.

Lemma onSubmitZip_busy (s : FormState) :
  inProgress s = true → onSubmitZip s = (Returns (), s).
Proof. intros Hp. unfold onSubmitZip, onSubmitZip_start. eff_unfold. by rewrite Hp. Qed.

Lemma onSubmitZip_idle (s : FormState) :
  inProgress s = false →
  exec onSubmitZip s
  = exec (onSubmitZip_resume (loadZipContent (fieldsInput s))) (set_inProgress true s).
Proof.
  intros Hp. unfold onSubmitZip, onSubmitZip_start. eff_unfold. by rewrite Hp.
Qed.

Lemma onSubmitZip_resume_load_failed (s : FormState) (e : JsExn) :
  exec (onSubmitZip_resume (Throws e)) s
  = set_inProgress false (set_error (Some (exn_toString e)) s).
Proof. reflexivity. Qed.

Lemma onSubmitZip_resume_rejected (s : FormState) (zipContent : ZipContent) (e : JsExn) :
  processZipContent zipContent s = (Throws e, s) →
  exec (onSubmitZip_resume (Returns zipContent)) s
  = set_inProgress false (set_error (Some (exn_toString e)) s).
Proof. intros Hp. unfold onSubmitZip_resume. eff_unfold. by rewrite Hp. Qed.

Lemma onSubmitZip_resume_valid (s : FormState) (zipContent : ZipContent) :
  files zipContent ≠ [] → Forall valid_entry (files zipContent) →
  exec (onSubmitZip_resume (Returns zipContent)) s
  = let parent := parentFormattedFilename zipContent in
    let ls := store_all parent (files zipContent) (localStorage s) in
    let abis := stored_list parent (files zipContent) in
    {| modalType := None; abiNameInput := abiNameInput s; fieldsInput := no_fields;
       everscanAbi := everscanAbi s; error := None; storedAbi := sorted_keys ls;
       abiFilter := abiFilter s; selectedAbi := storageKey <$> head abis;
       abiSelectorVisible := abiSelectorVisible s; inProgress := false;
       localStorage := ls; emitted := emitted s ++ [storedText <$> head abis] |}.
Proof.
  intros Hne Hall. unfold onSubmitZip_resume. eff_unfold.
  by rewrite processZipContent_valid.
Qed.

(** C8.  With [inProgress] set, [onSubmit] and [onSubmitZip] return at once
    and leave the whole state as it is.  Otherwise [inProgress] is [true] once
    the handler has started and [false] once it is over; the continuation
    after the awaited load ends with [inProgress] reset whatever the load and
    the validation did. *)
Theorem submit_guarded_by_inProgress (s : FormState) :
  (inProgress s = true →
     onSubmit s = (Returns (), s) ∧ onSubmitZip s = (Returns (), s)) ∧
  (inProgress s = false →
     inProgress (exec onSubmit_start s) = true ∧
     inProgress (exec onSubmitZip_start s) = true ∧
     inProgress (exec onSubmit s) = false ∧
     inProgress (exec onSubmitZip s) = false) ∧
  (∀ loaded, inProgress (exec (onSubmit_resume loaded) s) = false) ∧
  (∀ loaded, inProgress (exec (onSubmitZip_resume loaded) s) = false).
Proof.
  split_and!.
  - intros Hp. split; [by apply onSubmit_busy | by apply onSubmitZip_busy].
  - intros Hp. split_and!.
    + unfold onSubmit_start. eff_unfold. by rewrite Hp.
    + unfold onSubmitZip_start. eff_unfold. by rewrite Hp.
    + rewrite onSubmit_idle by done. apply try_finally_inProgress.
    + rewrite onSubmitZip_idle by done. apply try_finally_inProgress.
  - intros loaded. apply try_finally_inProgress.
  - intros loaded. apply try_finally_inProgress.
Qed.

(** Each continuation either refreshes [storedAbi] from the storage or leaves
    both as they were. *)
Lemma onSubmit_resume_stored (loaded : completion string) (s : FormState) :
  let s' := exec (onSubmit_resume loaded) s in
  storedAbi s' = sorted_keys (localStorage s') ∨
  (localStorage s' = localStorage s ∧ storedAbi s' = storedAbi s).
Proof.
  destruct loaded as [t|e]; [|by right].
  destruct (checkAbi t) as [[]|e] eqn:Hc; simpl.
  - left. by rewrite onSubmit_resume_valid.
  - right. by rewrite (onSubmit_resume_invalid _ _ e).
Qed.

Lemma onSubmitZip_resume_stored (loaded : completion ZipContent) (s : FormState) :
  let s' := exec (onSubmitZip_resume loaded) s in
  storedAbi s' = sorted_keys (localStorage s') ∨
  (localStorage s' = localStorage s ∧ storedAbi s' = storedAbi s).
Proof.
  destruct loaded as [zc|e]; [|by right].
  destruct (processZipContent_cases zc s) as [[e He] | [Hne Hall]]; simpl.
  - right. by rewrite (onSubmitZip_resume_rejected _ _ e).
  - left. by rewrite onSubmitZip_resume_valid.
Qed.



(** ** The registry watcher *)

(** No handler of the form touches [everscanAbi]. *)
Lemma handle_everscanAbi (ev : FormEvent) (s : FormState) :
  everscanAbi (exec (handle ev) s) = everscanAbi s.
Proof.
  destruct ev as [name|name|type| |value|value|fs|fs|value|value|value| | |
                  | |loaded| |loaded]; simpl; try done.
  - by destruct fs as [[|f fs]|].
  - by destruct fs as [[|f fs]|].
  - unfold onSubmitEverscanAbi, emit_change. eff_unfold.
    by destruct (everscanAbi s) eqn:Habi.
  - unfold onSubmit_start. eff_unfold. by destruct (inProgress s).
  - destruct loaded as [t|e]; [|done].
    destruct (checkAbi t) as [[]|e] eqn:Hc.
    + by rewrite onSubmit_resume_valid.
    + by rewrite (onSubmit_resume_invalid _ _ e).
  - unfold onSubmitZip_start. eff_unfold. by destruct (inProgress s).
  - destruct loaded as [zc|e]; [|done].
    destruct (processZipContent_cases zc s) as [[e He] | [Hne Hall]].
    + by rewrite (onSubmitZip_resume_rejected _ _ e).
    + by rewrite onSubmitZip_resume_valid.
Qed.

Lemma watch_callback_inv (codeHash address : option string) (c : Component) :
  watcher_inv c → cleanup c = None → watcher_inv (watch_callback codeHash address c).
Proof.
  intros (Hc & He & Hr) Hnone. unfold watch_callback.
  destruct address as [a|], codeHash as [h|]; try done.
  split_and!; simpl.
  - intros i ctx Hi Hne.
    destruct (decide (i < length (fetches c))) as [Hlt|Hge].
    + rewrite lookup_app_l in Hi by done. apply (Hc i ctx Hi). by rewrite Hnone.
    + rewrite lookup_app_r in Hi by lia.
      destruct (i - length (fetches c)) as [|n] eqn:Hn; [|done].
      destruct Hne. f_equal. lia.
  - by eauto.
  - intros i [= <-]. rewrite length_app. simpl. lia.
Qed.

Lemma run_cleanup_spec (c : Component) :
  watcher_inv c →
  let c1 := run_cleanup c in
  watcher_inv c1 ∧ cleanup c1 = None ∧ everscanAbi (form c1) = None ∧
  length (fetches c1) = length (fetches c) ∧
  Forall cancelled (fetches c1).
Proof.
  intros Hinv. pose proof Hinv as (Hc & He & Hr). unfold run_cleanup, cleanup_fn.
  destruct (cleanup c) as [i|] eqn:Hreg; simpl.
  - destruct (fetches c !! i) as [ctx|] eqn:Hi.
    + assert (∀ j ctx', <[i:={| fetch_codeHash := fetch_codeHash ctx;
                                 fetch_address := fetch_address ctx;
                                 codeHashChanged := true; aborted := true |}]>
                          (fetches c) !! j = Some ctx' → cancelled ctx') as Hall.
      { intros j ctx' Hj. destruct (decide (i = j)) as [<-|Hij].
        - rewrite list_lookup_insert_eq in Hj by (by eapply lookup_lt_Some).
          by injection Hj as <-.
        - rewrite list_lookup_insert_ne in Hj by done.
          apply (Hc j ctx' Hj). congruence. }
      split_and!; simpl; try done.
      * split_and!; simpl; [by eauto | by intros [? ?] | done].
      * by rewrite length_insert.
      * apply Forall_lookup. by eauto.
    + apply lookup_ge_None in Hi. specialize (Hr i eq_refl). lia.
  - rewrite Hreg. split_and!; try done.
    + destruct (everscanAbi (form c)) eqn:Hev; [|done].
      by destruct He as [? ?]; [eauto|].
    + apply Forall_lookup. intros j ctx' Hj. by apply (Hc j ctx' Hj).
Qed.

Lemma fetch_resolved_inv (i : nat) (data : Json) (c : Component) :
  watcher_inv c → watcher_inv (fetch_resolved i data c).
Proof.
  intros (Hc & He & Hr). unfold fetch_resolved.
  destruct (fetches c !! i) as [ctx|] eqn:Hi; [|done].
  destruct (codeHashChanged ctx) eqn:Hflag; [done|].
  destruct (js_truthy data); [|done].
  destruct (js_get data "abi") as [abi|]; [|done].
  destruct (js_truthy abi); [|done].
  split_and!; simpl; [done| |done].
  intros _. destruct (decide (cleanup c = Some i)) as [->|Hne]; [by eauto|].
  destruct (Hc i ctx Hi Hne) as [Hx _]. congruence.
Qed.

Lemma reachable_inv (c : Component) : reachable c → watcher_inv c.
Proof.
  induction 1 as [ls codeHash address|ev c Hc IH|codeHash address c Hc IH|i data c Hc IH].
  - apply watch_callback_inv; [|done].
    split_and!; simpl; [done|by intros [? ?]|done].
  - destruct IH as (Hcan & Hev & Hreg). split_and!; simpl; [done| |done].
    by rewrite handle_everscanAbi.
  - destruct (run_cleanup_spec c IH) as (Hinv & Hnone & _).
    by apply watch_callback_inv.
  - by apply fetch_resolved_inv.
Qed.

(** The continuation of a cancelled run does nothing. *)
Lemma fetch_resolved_cancelled (i : nat) (data : Json) (c : Component) (ctx : FetchCtx) :
  fetches c !! i = Some ctx → codeHashChanged ctx = true → fetch_resolved i data c = c.
Proof. intros Hi Hflag. unfold fetch_resolved. by rewrite Hi, Hflag. Qed.

Lemma fetch_resolved_superseded (i : nat) (data : Json) (c : Component) :
  watcher_inv c → cleanup c ≠ Some i → fetch_resolved i data c = c.
Proof.
  intros (Hc & _) Hne. destruct (fetches c !! i) as [ctx|] eqn:Hi.
  - destruct (Hc i ctx Hi Hne) as [Hflag _]. by eapply fetch_resolved_cancelled.
  - unfold fetch_resolved. by rewrite Hi.
Qed.

(** C4.  A change of [codeHash] or [address] (to [null] as well) on a
    reachable component: the watcher first runs the registered cleanup, after
    which [everscanAbi] is [undefined] and every run so far is aborted with
    its [codeHashChanged] set; only then does the callback start a new load.
    After the change [everscanAbi] is still [undefined], and the response of
    any earlier run no longer changes anything.  In every reachable state
    the response of a run other than the registered one changes nothing. *)
Theorem props_change_cancels_fetch (c : Component) (codeHash address : option string) :
  reachable c →
  let c1 := run_cleanup c in
  let c' := props_changed codeHash address c in
  c' = watch_callback codeHash address c1 ∧
  everscanAbi (form c1) = None ∧
  Forall (λ ctx, aborted ctx = true ∧ codeHashChanged ctx = true) (fetches c1) ∧
  everscanAbi (form c') = None ∧
  (∀ i, i < length (fetches c) →
     ∃ ctx, fetches c' !! i = Some ctx ∧ aborted ctx = true ∧ codeHashChanged ctx = true) ∧
  (∀ i data, i < length (fetches c) → fetch_resolved i data c' = c') ∧
  (∀ i data, cleanup c ≠ Some i → fetch_resolved i data c = c).
Proof.
  intros Hreach c1 c'. pose proof (reachable_inv c Hreach) as Hinv.
  destruct (run_cleanup_spec c Hinv) as (Hinv1 & Hnone & Hev & Hlen & Hall).
  fold c1 in Hinv1, Hnone, Hev, Hlen, Hall.
  assert (∀ i, i < length (fetches c) →
            ∃ ctx, fetches c' !! i = Some ctx ∧ cancelled ctx) as Hold.
  { intros i Hi. rewrite <- Hlen in Hi.
    destruct (lookup_lt_is_Some_2 _ _ Hi) as [ctx Hctx].
    exists ctx. split; [|by eapply Forall_lookup_1].
    subst c'. unfold props_changed, watch_callback. fold c1.
    destruct address, codeHash; simpl; try done. by rewrite lookup_app_l. }
  split_and!.
  - done.
  - done.
  - eapply Forall_impl; [exact Hall|]. by intros ctx [? ?].
  - subst c'. unfold props_changed, watch_callback. fold c1.
    by destruct address, codeHash.
  - intros i Hi. destruct (Hold i Hi) as (ctx & ? & ? & ?). by eauto.
  - intros i data Hi. destruct (Hold i Hi) as (ctx & Hctx & Hflag & _).
    by eapply fetch_resolved_cancelled.
  - intros i data. by apply fetch_resolved_superseded.
Qed.

(** C7, as amended.  The response of a run that has not been superseded
    sets [everscanAbi] to [JSON.stringify(data.abi)] when [data] and
    [data.abi] are truthy.  [onSubmitEverscanAbi] emits ['change'] with
    [everscanAbi] when it is set and does nothing otherwise.  Neither step
    writes to [localStorage]. *)
Theorem everscan_abi_offered_not_stored (c : Component) (i : nat) (data : Json)
    (s : FormState) :
  (∀ ctx abi,
     fetches c !! i = Some ctx → codeHashChanged ctx = false →
     js_truthy data = true → js_get data "abi" = Some abi → js_truthy abi = true →
     everscanAbi (form (fetch_resolved i data c)) = Some (JSON_stringify abi)) ∧
  localStorage (form (fetch_resolved i data c)) = localStorage (form c) ∧
  (∀ a, everscanAbi s = Some a →
     onSubmitEverscanAbi s = (Returns (), set_emitted (emitted s ++ [Some a]) s)) ∧
  (everscanAbi s = None → onSubmitEverscanAbi s = (Returns (), s)) ∧
  localStorage (exec onSubmitEverscanAbi s) = localStorage s.
Proof.
  split_and!.
  - intros ctx abi Hi Hflag Hd Habi Ht. unfold fetch_resolved.
    by rewrite Hi, Hflag, Hd, Habi, Ht.
  - unfold fetch_resolved. destruct (fetches c !! i) as [ctx|]; [|done].
    destruct (codeHashChanged ctx); [done|]. destruct (js_truthy data); [|done].
    destruct (js_get data "abi") as [abi|]; [|done]. by destruct (js_truthy abi).
  - intros a Ha. unfold onSubmitEverscanAbi, emit_change. eff_unfold. by rewrite Ha.
  - intros Ha. unfold onSubmitEverscanAbi. eff_unfold. by rewrite Ha.
  - unfold onSubmitEverscanAbi, emit_change. eff_unfold.
    by destruct (everscanAbi s) eqn:Habi.
Qed.

End form_properties.

(** * Properties of the serializer workspace *)

Section workspace_properties.
Import SerializerWorkspace.
Context {core_module : Core} {codec : JsonCodec}.

Lemma clear_spec (callback : Method ()) (w : Workspace) :
  clear callback w
  = callback {| state := {| abiInput := abiInput (state w); decodedAbi := None;
                            error := None |};
                freed := freed w ++ held w |}.
Proof.
  unfold clear, setState, free, held. eff_unfold. simpl.
  destruct (decodedAbi (state w)); simpl; [done|]. by rewrite app_nil_r.
Qed.

Lemma setState_spec (update : SerializerWorkspaceState → SerializerWorkspaceState)
    (callback : Method ()) (w : Workspace) :
  setState update callback w
  = callback {| state := update (state w); freed := freed w |}.
Proof. reflexivity. Qed.

Lemma handleAbi_parsed (w : Workspace) (input : string) (h : AbiEntityHandler) :
  parseAbi input = Returns h →
  exec (handleAbi input) w
  = {| state := {| abiInput := prettyPrint input;
                   decodedAbi := Some (prepareHandler h); error := None |};
       freed := freed w ++ held w |}.
Proof.
  intros Hp. unfold handleAbi, setNewAbi, exec, try_catch, eff_bind, lift.
  rewrite Hp, setState_spec. unfold eff_ret. by rewrite clear_spec, setState_spec.
Qed.

Lemma handleAbi_rejected (w : Workspace) (input : string) (e : JsExn) :
  parseAbi input = Throws e →
  exec (handleAbi input) w
  = {| state := {| abiInput := prettyPrint input; decodedAbi := None;
                   error := Some (exn_toString e) |};
       freed := freed w ++ held w |}.
Proof.
  intros Hp. unfold handleAbi, exec, try_catch, eff_bind, lift.
  rewrite Hp, setState_spec. unfold eff_ret. by rewrite clear_spec, setState_spec.
Qed.

(** C5.  [handleAbi] decodes its input through [core.parseAbi] alone.  When
    [parseAbi] returns a handler, [decodedAbi] holds that handler with its
    data and [error] is [null]; when it throws [e], [decodedAbi] is [null] and
    [error] is [e.toString()].  Either way the handler held before, if any,
    is freed, and nothing else is. *)
Theorem handleAbi_decodes_through_parseAbi (w : Workspace) (input : string) :
  let w' := exec (handleAbi input) w in
  abiInput (state w') = prettyPrint input ∧
  freed w' = freed w ++ held w ∧
  (∀ h, parseAbi input = Returns h →
     decodedAbi (state w') = Some {| handler := h; data := handler_data h |} ∧
     error (state w') = None) ∧
  (∀ e, parseAbi input = Throws e →
     decodedAbi (state w') = None ∧ error (state w') = Some (exn_toString e)).
Proof.
  intros w'. subst w'. destruct (parseAbi input) as [h|e] eqn:Hp.
  - rewrite (handleAbi_parsed w input h Hp). split_and!; [done|done| |done].
    by intros ? [= <-].
  - rewrite (handleAbi_rejected w input e Hp). split_and!; [done|done|done|].
    by intros ? [= <-].
Qed.

(** C10.  [prettyPrint] returns [JSON.stringify(parsed, undefined, 4)] when
    its input parses and the input itself otherwise.  Given that what
    [JSON.stringify] prints parses again, to a value that prints the same
    (which holds of the JSON object of ECMAScript), [prettyPrint] is
    idempotent. *)
Theorem prettyPrint_idempotent :
  (∀ v, ∃ v', JSON_parse (JSON_stringify_indent v 4) = Some v' ∧
              JSON_stringify_indent v' 4 = JSON_stringify_indent v 4) →
  ∀ s,
    (∀ v, JSON_parse s = Some v → prettyPrint s = JSON_stringify_indent v 4) ∧
    (JSON_parse s = None → prettyPrint s = s) ∧
    prettyPrint (prettyPrint s) = prettyPrint s.
Proof.
  intros Hround s. unfold prettyPrint. split_and!.
  - by intros v ->.
  - by intros ->.
  - destruct (JSON_parse s) as [v|] eqn:Hs.
    + destruct (Hround v) as (v' & Hparse & Hprint). by rewrite Hparse.
    + by rewrite Hs.
Qed.

End workspace_properties.

(** * Further properties of the form *)

Section form_invariants.
Context `{!Core, !JsonValue, !Runtime, !WebIO, !Common}.

(** X2.  Storing and reading back.  After [onSubmit] has stored a valid text,
    the name holds that text whatever it held before, every other key is as
    it was, and selecting the name emits the same text again.  The name is
    listed in [storedAbi] exactly when it is not the name of a property of
    the storage's prototypes. *)
Theorem onSubmit_then_onSelectAbi (s : FormState) (loadedText : string) :
  checkAbi loadedText = Returns () →
  let name := abiNameInput s in
  let s1 := exec (onSubmit_resume (Returns loadedText)) s in
  let s2 := exec (onSelectAbi name) s1 in
  localStorage s1 !! name = Some loadedText ∧
  (∀ k, k ≠ name → localStorage s1 !! k = localStorage s !! k) ∧
  (name ∈ storedAbi s1 ↔ enumerable name = true) ∧
  selectedAbi s2 = Some name ∧
  emitted s2 = emitted s ++ [Some loadedText; Some loadedText] ∧
  localStorage s2 = localStorage s1.
Proof.
  intros Hvalid name s1 s2. subst s2 s1.
  rewrite (onSubmit_resume_valid s loadedText Hvalid). simpl. fold name.
  unfold onSelectAbi, localStorage_getItem, emit_change. eff_unfold. simpl.
  rewrite lookup_insert_eq. simpl. split_and!; try done.
  - intros k Hk. by rewrite lookup_insert_ne.
  - rewrite (proj1 (sorted_keys_spec _) name), lookup_insert_eq.
    split; [by intros [_ ?]|]. intros Hown. split; [by eexists|done].
  - by rewrite <- app_assoc.
Qed.

(** X3.  Deleting.  After [onDeleteAbi(name)] the key is gone, every other
    key is as it was, and the list holds the remaining keys that are own
    properties of the storage.  The selection
    and the emitted events are not touched, so a deleted name may stay
    selected; selecting it afterwards emits [null].  Deleting again changes
    nothing. *)
Theorem onDeleteAbi_removes_key (s : FormState) (name : string) :
  let s1 := exec (onDeleteAbi name) s in
  let s2 := exec (onSelectAbi name) s1 in
  localStorage s1 !! name = None ∧
  (∀ k, k ≠ name → localStorage s1 !! k = localStorage s !! k) ∧
  (∀ k, k ∈ storedAbi s1 ↔
          k ≠ name ∧ is_Some (localStorage s !! k) ∧ enumerable k = true) ∧
  selectedAbi s1 = selectedAbi s ∧ emitted s1 = emitted s ∧
  selectedAbi s2 = None ∧ emitted s2 = emitted s ++ [None] ∧
  exec (onDeleteAbi name) s1 = s1.
Proof.
  intros s1 s2. subst s2 s1.
  unfold onDeleteAbi, onSelectAbi, localStorage_removeItem, localStorage_getItem,
    getAllAbis, emit_change. eff_unfold. simpl.
  rewrite lookup_delete_eq. simpl. split_and!; try done.
  - intros k Hk. by rewrite lookup_delete_ne.
  - intros k. rewrite (proj1 (sorted_keys_spec _) k).
    destruct (decide (k = name)) as [->|Hk].
    + rewrite lookup_delete_eq. split; [by intros [[? ?] _]|by intros [? _]].
    + rewrite lookup_delete_ne by done. split; [by intros [? ?]|by intros (_ & ? & ?)].
  - by rewrite delete_delete_eq.
Qed.

(** X4.  What a submit does to the modal.  A successful [onSubmit] closes the
    modal, clears the inputs and the error and selects the name; a successful
    [onSubmitZip] does the same and selects the first entry of the archive,
    whose text it emits.  An [onSubmit] that ends with an error, and an
    [onSubmitZip] whose load or validation fails, leave the modal open with
    the inputs, the selection and the storage as they were, so that it can
    be tried again. *)
Theorem submit_closes_modal_on_success (s : FormState) :
  (∀ loadedText, checkAbi loadedText = Returns () →
     let s' := exec (onSubmit_resume (Returns loadedText)) s in
     modalType s' = None ∧ fieldsInput s' = no_fields ∧ error s' = None ∧
     selectedAbi s' = Some (abiNameInput s) ∧ abiNameInput s' = abiNameInput s) ∧
  (∀ zipContent first rest,
     files zipContent = first :: rest → Forall valid_entry (files zipContent) →
     let s' := exec (onSubmitZip_resume (Returns zipContent)) s in
     modalType s' = None ∧ fieldsInput s' = no_fields ∧ error s' = None ∧
     selectedAbi s' = Some (storage_key (parentFormattedFilename zipContent) first) ∧
     emitted s' = emitted s ++ [Some (text first)]) ∧
  (∀ loaded,
     let s' := exec (onSubmit_resume loaded) s in
     is_Some (error s') →
     modalType s' = modalType s ∧ fieldsInput s' = fieldsInput s ∧
     selectedAbi s' = selectedAbi s ∧ abiNameInput s' = abiNameInput s ∧
     localStorage s' = localStorage s ∧ emitted s' = emitted s) ∧
  (∀ loaded,
     let s' := exec (onSubmitZip_resume loaded) s in
     ((∃ e, loaded = Throws e) ∨
      (∃ zipContent, loaded = Returns zipContent ∧
         (files zipContent = [] ∨ ¬ Forall valid_entry (files zipContent)))) →
     is_Some (error s') ∧
     modalType s' = modalType s ∧ fieldsInput s' = fieldsInput s ∧
     selectedAbi s' = selectedAbi s ∧ abiNameInput s' = abiNameInput s ∧
     localStorage s' = localStorage s ∧ emitted s' = emitted s).
Proof.
  split_and!.
  - intros t Hvalid s'. subst s'. by rewrite onSubmit_resume_valid.
  - intros zc first rest Hfiles Hall s'. subst s'.
    rewrite onSubmitZip_resume_valid; [|by rewrite Hfiles|done]. simpl.
    by rewrite Hfiles.
  - intros loaded s'. subst s'. destruct loaded as [t|e]; [|done].
    destruct (checkAbi t) as [[]|e] eqn:Hc.
    + rewrite onSubmit_resume_valid by done. simpl. by intros [? ?].
    + by rewrite (onSubmit_resume_invalid _ _ e).
  - intros loaded s'. subst s'.
    intros [[e ->] | (zc & -> & Hbad)].
    + rewrite onSubmitZip_resume_load_failed. simpl. split_and!; by eauto.
    + destruct (processZipContent_cases zc s) as [[e He] | [Hne Hall]].
      * rewrite (onSubmitZip_resume_rejected _ _ e) by done. simpl.
        split_and!; by eauto.
      * by destruct Hbad.
Qed.


Lemma submit_error_idle (s : FormState) (message : option string) :
  inProgress s = false →
  set_inProgress false (set_error message (set_inProgress true s)) = set_error message s.
Proof. destruct s. simpl. by intros ->. Qed.

(** X5.  Submitting nothing.  On an idle form [onSubmit] without text, link
    and file only sets the error to ['Error: No ABI input specified'];
    [onSubmitZip] without a zip file and with a link that is absent or empty
    only sets it to ['Error: No zip link or file specified']; and an archive
    without entries only sets it to ['Error: Provided zip archive is
    empty']. *)
Theorem submit_without_input (s : FormState) :
  inProgress s = false →
  (input_text (fieldsInput s) = None → input_link (fieldsInput s) = None →
   input_file (fieldsInput s) = None →
     exec onSubmit s = set_error (Some "Error: No ABI input specified") s) ∧
  (input_zip (fieldsInput s) ≫= zip_file = None →
   (input_zip (fieldsInput s) ≫= zip_link = None ∨
    input_zip (fieldsInput s) ≫= zip_link = Some "") →
     exec onSubmitZip s = set_error (Some "Error: No zip link or file specified") s) ∧
  (∀ zipContent, files zipContent = [] →
     exec (onSubmitZip_resume (Returns zipContent)) s
     = set_error (Some "Error: Provided zip archive is empty") s).
Proof.
  intros Hidle. split_and!.
  - intros Ht Hl Hf. rewrite onSubmit_idle by done.
    unfold loadAbiText. rewrite Ht, Hl, Hf. rewrite onSubmit_resume_load_failed.
    by apply submit_error_idle.
  - intros Hf Hl. rewrite onSubmitZip_idle by done.
    unfold loadZipContent. rewrite Hf.
    assert (link_given (input_zip (fieldsInput s) ≫= zip_link) = false) as ->
      by (by destruct Hl as [-> | ->]).
    simpl. rewrite onSubmitZip_resume_load_failed. by apply submit_error_idle.
  - intros zc Hfiles.
    rewrite (onSubmitZip_resume_rejected s zc
               (JsError "Provided zip archive is empty"))
      by (by apply processZipContent_empty).
    simpl. destruct s. simpl in *. by subst.
Qed.

(** X6.  An archive with an entry the core rejects.  [onSubmitZip] stores
    nothing, emits nothing and shows ['Error: Processing error for
    '<filename>' file. Internal <e.toString()>'] for the first entry that
    fails, whatever comes after it in the archive. *)
Theorem onSubmitZip_names_rejected_entry (s : FormState) (zipContent : ZipContent)
    (pre post : list AbiFile) (abiFile : AbiFile) (err : JsExn) :
  files zipContent = pre ++ abiFile :: post →
  Forall valid_entry pre → checkAbi (text abiFile) = Throws err →
  let s' := exec (onSubmitZip_resume (Returns zipContent)) s in
  error s' = Some ("Error: Processing error for '" +:+ filename abiFile
                     +:+ "' file. Internal " +:+ exn_toString err) ∧
  localStorage s' = localStorage s ∧ storedAbi s' = storedAbi s ∧
  selectedAbi s' = selectedAbi s ∧ emitted s' = emitted s ∧
  modalType s' = modalType s.
Proof.
  intros Hfiles Hpre Herr s'. subst s'.
  rewrite (onSubmitZip_resume_rejected s zipContent (processing_error abiFile err))
    by (by eapply processZipContent_invalid).
  simpl. by split_and!.
Qed.

(** X7.  Closing the modal does not cancel a submit.  When the modal is
    closed while [loadAbiText()] is awaited, the load that was started from
    the inputs of that time still completes: a valid text is stored under
    [abiNameInput], selected and emitted, and a failure sets [error] on the
    closed modal. *)
Theorem closeModal_does_not_cancel_onSubmit (s : FormState) :
  inProgress s = false →
  let pending := loadAbiText (fieldsInput s) in
  let closed := exec closeModal (exec onSubmit_start s) in
  onSubmit_start s = (Returns (Some pending), set_inProgress true s) ∧
  fieldsInput closed = no_fields ∧ inProgress closed = true ∧
  (∀ loadedText, pending = Returns loadedText → checkAbi loadedText = Returns () →
     let s' := exec (onSubmit_resume pending) closed in
     localStorage s' = <[abiNameInput s := loadedText]> (localStorage s) ∧
     selectedAbi s' = Some (abiNameInput s) ∧
     emitted s' = emitted s ++ [Some loadedText]) ∧
  (∀ e, pending = Throws e →
     let s' := exec (onSubmit_resume pending) closed in
     modalType s' = None ∧ error s' = Some (exn_toString e)).
Proof.
  intros Hidle pending closed.
  assert (onSubmit_start s = (Returns (Some pending), set_inProgress true s)) as Hstart.
  { unfold onSubmit_start. eff_unfold. by rewrite Hidle. }
  assert (exec onSubmit_start s = set_inProgress true s) as Hexec
    by (unfold exec; by rewrite Hstart).
  subst closed. rewrite Hexec. split_and!; try done.
  - intros t Hp Hvalid s'. subst s'. rewrite Hp.
    by rewrite onSubmit_resume_valid.
  - intros e Hp s'. subst s'. rewrite Hp.
    by rewrite onSubmit_resume_load_failed.
Qed.


(** ** Loading an archive *)

Lemma all_completions_Returns {A B} (f : A → completion B) (l : list A) (ys : list B) :
  all_completions f l = Returns ys → Forall2 (λ x y, f x = Returns y) l ys.
Proof.
  revert ys. induction l as [|x l IH]; intros ys; simpl.
  - intros [= <-]. constructor.
  - destruct (f x) as [y|e] eqn:Hx; [|done]. simpl.
    destruct (all_completions f l) as [ys'|e]; [|done]. simpl.
    intros [= <-]. constructor; [done|]. by apply IH.
Qed.

(** The entries as read, before they are sorted. *)
Lemma read_entries_spec (entries : list (string * Bytes)) (filesData : list AbiFile) :
  Forall2 (λ (x : string * Bytes) y,
             and_then (readAsText (new_File x.2 x.1)) (λ result,
               Returns {| filename := x.1; text := or_empty result |}) = Returns y)
    entries filesData →
  filename <$> filesData = entries.*1 ∧
  Forall (λ abiFile,
            ∃ bytes result,
              (filename abiFile, bytes) ∈ entries ∧
              readAsText (new_File bytes (filename abiFile)) = Returns result ∧
              text abiFile = or_empty result) filesData.
Proof.
  induction 1 as [|[name bytes] abiFile entries filesData Hx _ [IHnames IHread]];
    [done|].
  simpl in Hx. destruct (readAsText (new_File bytes name)) as [result|] eqn:Hr; [|done].
  injection Hx as <-. split.
  - rewrite !fmap_cons. by rewrite IHnames.
  - constructor.
    + exists bytes, result. split_and!; [|done|done]. apply elem_of_cons. by left.
    + eapply Forall_impl; [exact IHread|]. intros f (b & r & Hb & ? & ?).
      exists b, r. split_and!; [|done|done]. apply elem_of_cons. by right.
Qed.

(** X8.  What a loaded archive is.  When [loadZipContent] returns, a zip file
    or a non-empty link was given, the file taking precedence; the archive
    is named after the file, or after the last segment of the link; its
    entries are those [unzipSync] found, each once, with the text read from
    the entry (the empty string when the read has no result); and for a total
    comparison they are in the order of [localeCompare] on the file names. *)
Theorem loadZipContent_unpacks_and_sorts (fields : FieldsInput) (zipContent : ZipContent) :
  loadZipContent fields = Returns zipContent →
  let file := input_zip fields ≫= zip_file in
  let link := input_zip fields ≫= zip_link in
  (is_Some file ∨ ∃ l, link = Some l ∧ l ≠ "") ∧
  archive_filename zipContent
  = match file with
    | Some f => file_name f
    | None => split_pop "/" (or_empty link)
    end ∧
  ∃ buffer entries,
    match file with
    | Some f => file_arrayBuffer f
    | None => fetch_arrayBuffer (or_empty link)
    end = Returns buffer ∧
    unzipSync buffer = Returns entries ∧
    filename <$> files zipContent ≡ₚ entries.*1 ∧
    Forall (λ abiFile,
              ∃ bytes result,
                (filename abiFile, bytes) ∈ entries ∧
                readAsText (new_File bytes (filename abiFile)) = Returns result ∧
                text abiFile = or_empty result) (files zipContent) ∧
    ((∀ a b, (localeCompare_numeric_case a b ≤ 0)%Z ∨ (localeCompare_numeric_case b a ≤ 0)%Z) →
       Sorted (λ x y, (localeCompare_numeric_case (filename x) (filename y) ≤ 0)%Z)
         (files zipContent)).
Proof.
  intros Hload file link. unfold loadZipContent in Hload. fold file link in Hload.
  destruct (negb (bool_decide (is_Some file)) && negb (link_given link)) eqn:Hguard;
    [done|].
  assert (is_Some file ∨ ∃ l, link = Some l ∧ l ≠ "") as Hgiven.
  { destruct file as [f|]; [left; by eexists|]. right.
    destruct link as [l|]; simpl in Hguard; [|done].
    exists l. split; [done|]. by case_bool_decide. }
  destruct (match file with
            | Some f => file_arrayBuffer f
            | None => fetch_arrayBuffer (or_empty link)
            end) as [buffer|e] eqn:Hbuffer; [|done].
  simpl in Hload. destruct (unzipSync buffer) as [entries|e] eqn:Hunzip; [|done].
  simpl in Hload.
  destruct (all_completions _ entries) as [filesData|e] eqn:Hread; [|done].
  simpl in Hload. injection Hload as <-. simpl.
  apply all_completions_Returns in Hread.
  split_and!; [done| |].
  { destruct file as [f|]; [done|]. by destruct link. }
  destruct (read_entries_spec entries filesData Hread) as [Hnames Htexts].
  exists buffer, entries. split_and!; [done|done| | |].
  - by rewrite js_sort_Permutation, Hnames.
  - apply Forall_forall. intros abiFile Hin. apply js_sort_elem_of in Hin.
    by apply (proj1 (Forall_forall _ _) Htexts).
  - intros Htot.
    apply (js_sort_Sorted (λ x y, localeCompare_numeric_case (filename x) (filename y))).
    intros a b. apply Htot.
Qed.


(** ** All handlers together *)

(** Each handler leaves the inputs alone, clears them, or replaces them by a
    single source. *)
Lemma handle_fieldsInput (ev : FormEvent) (s : FormState) :
  let s' := exec (handle ev) s in
  fieldsInput s' = fieldsInput s ∨ sources_given (fieldsInput s') ≤ 1.
Proof.
  destruct ev as [name|name|type| |value|value|fs|fs|value|value|value| | |
                  | |loaded| |loaded]; simpl;
    try (by left); try (right; unfold sources_given; simpl; lia).
  - destruct fs as [[|f fs]|]; [by left|right; unfold sources_given; simpl; lia|by left].
  - destruct fs as [[|f fs]|]; [by left|right; unfold sources_given; simpl; lia|by left].
  - left. unfold onSubmitEverscanAbi, emit_change. eff_unfold.
    by destruct (everscanAbi s) eqn:Habi.
  - left. unfold onSubmit_start. eff_unfold. by destruct (inProgress s).
  - destruct loaded as [t|e]; [|by left].
    destruct (checkAbi t) as [[]|e] eqn:Hc.
    + right. rewrite onSubmit_resume_valid by done. unfold sources_given. simpl. lia.
    + left. by rewrite (onSubmit_resume_invalid _ _ e).
  - left. unfold onSubmitZip_start. eff_unfold. by destruct (inProgress s).
  - destruct loaded as [zc|e]; [|by left].
    destruct (processZipContent_cases zc s) as [[e He] | [Hne Hall]].
    + left. by rewrite (onSubmitZip_resume_rejected _ _ e).
    + right. rewrite onSubmitZip_resume_valid by done. unfold sources_given. simpl. lia.
Qed.

(** X9.  One source at a time.  In every reachable state [fieldsInput] holds
    at most one of file, text, link, zip file and zip link: each input
    handler replaces what was entered before.  So the order in which
    [loadAbiText] looks at text, link and file never decides anything. *)
Theorem reachable_single_source (c : Component) :
  reachable c →
  let fields := fieldsInput (form c) in
  sources_given fields ≤ 1 ∧
  (is_Some (input_text fields) → input_link fields = None ∧ input_file fields = None) ∧
  (is_Some (input_link fields) → input_text fields = None ∧ input_file fields = None) ∧
  (is_Some (input_file fields) → input_text fields = None ∧ input_link fields = None).
Proof.
  intros Hreach fields.
  assert (sources_given fields ≤ 1) as Hone.
  { subst fields.
    induction Hreach as [ls codeHash address|ev c Hc IH|codeHash address c Hc IH
                        |i data c Hc IH].
    - unfold mount, watch_callback. destruct address, codeHash; unfold sources_given; simpl; lia.
    - simpl. destruct (handle_fieldsInput ev (form c)) as [Heq|Hle]; [|done].
      by rewrite Heq.
    - unfold props_changed, watch_callback, run_cleanup, cleanup_fn.
      by destruct address, codeHash, (cleanup c).
    - unfold fetch_resolved. destruct (fetches c !! i) as [ctx|]; [|done].
      destruct (codeHashChanged ctx); [done|]. destruct (js_truthy data); [|done].
      destruct (js_get data "abi") as [abi|]; [|done]. by destruct (js_truthy abi). }
  split; [done|]. clear Hreach. revert Hone. unfold sources_given.
  destruct (input_file fields), (input_text fields), (input_link fields),
    (input_zip fields) as [[[?|] [?|]]|]; simpl; intros Hone;
    split_and!; intros [? ?]; try done; try lia.
Qed.

Lemma no_new_event (l : list (option string)) :
  ∃ new : list (option string), l = l ++ new ∧ length new ≤ 1.
Proof. exists []. rewrite app_nil_r. split; [done|simpl; lia]. Qed.

Lemma one_new_event (l : list (option string)) (x : option string) :
  ∃ new : list (option string), l ++ [x] = l ++ new ∧ length new ≤ 1.
Proof. exists [x]. split; [done|simpl; lia]. Qed.

(** Closes the three parts of a frame statement once the handler has been
    evaluated. *)
Ltac frame_parts :=
  split_and!; first [done | apply one_new_event | apply no_new_event].

(** X10.  What the handlers leave alone.  Of all events on the form only a
    delete and the continuations of the two submits can change
    [localStorage]; only a select, the Everscan button and those
    continuations can emit, and any event emits at most once and never
    withdraws an event. *)
Theorem handlers_frame (ev : FormEvent) (s : FormState) :
  let s' := exec (handle ev) s in
  (localStorage s' ≠ localStorage s →
     match ev with
     | DeleteAbi _ | SubmitResume _ | SubmitZipResume _ => True
     | _ => False
     end) ∧
  (emitted s' ≠ emitted s →
     match ev with
     | SelectAbi _ | SubmitEverscanAbi | SubmitResume _ | SubmitZipResume _ => True
     | _ => False
     end) ∧
  (∃ new, emitted s' = emitted s ++ new ∧ length new ≤ 1).
Proof.
  destruct ev as [name|name|type| |value|value|fs|fs|value|value|value| | |
                  | |loaded| |loaded]; simpl; try (by frame_parts).
  - by destruct fs as [[|f fs]|]; frame_parts.
  - by destruct fs as [[|f fs]|]; frame_parts.
  - unfold onSubmitEverscanAbi, emit_change. eff_unfold.
    by destruct (everscanAbi s) eqn:Habi; frame_parts.
  - unfold onSubmit_start. eff_unfold. by destruct (inProgress s); frame_parts.
  - destruct loaded as [t|e]; [|by frame_parts].
    destruct (checkAbi t) as [[]|e] eqn:Hc.
    + rewrite onSubmit_resume_valid by done. by frame_parts.
    + rewrite (onSubmit_resume_invalid _ _ e) by done. by frame_parts.
  - unfold onSubmitZip_start. eff_unfold. by destruct (inProgress s); frame_parts.
  - destruct loaded as [zc|e]; [|by frame_parts].
    destruct (processZipContent_cases zc s) as [[e He] | [Hne Hall]].
    + rewrite (onSubmitZip_resume_rejected _ _ e) by done. by frame_parts.
    + rewrite onSubmitZip_resume_valid by done. by frame_parts.
Qed.


(** ** Runs of the registry watcher *)

(** The registered run is the one created last, and it is live. *)
Lemma reachable_registered_run (c : Component) :
  reachable c →
  ∀ i, cleanup c = Some i →
       S i = length (fetches c) ∧ ∃ ctx, fetches c !! i = Some ctx ∧ live ctx.
Proof.
  assert (∀ codeHash address c0,
            (∀ i, cleanup c0 = Some i →
                  S i = length (fetches c0) ∧
                  ∃ ctx, fetches c0 !! i = Some ctx ∧ live ctx) →
            cleanup c0 = None →
            ∀ i, cleanup (watch_callback codeHash address c0) = Some i →
                 S i = length (fetches (watch_callback codeHash address c0)) ∧
                 ∃ ctx, fetches (watch_callback codeHash address c0) !! i = Some ctx
                        ∧ live ctx) as Hcallback.
  { intros codeHash address c0 IH Hnone. unfold watch_callback.
    destruct address as [a|], codeHash as [h|]; try done. simpl.
    intros i [= <-]. rewrite length_app. simpl. split; [lia|].
    rewrite lookup_app_r by lia. rewrite Nat.sub_diag. simpl.
    eexists. split; [done|by split]. }
  induction 1 as [ls codeHash address|ev c Hc IH|codeHash address c Hc IH|i data c Hc IH].
  - by apply Hcallback.
  - done.
  - destruct (run_cleanup_spec c (reachable_inv c Hc)) as (_ & Hnone & _).
    apply Hcallback; [|done]. intros i Hi. by rewrite Hnone in Hi.
  - unfold fetch_resolved. destruct (fetches c !! i) as [ctx|]; [|done].
    destruct (codeHashChanged ctx); [done|]. destruct (js_truthy data); [|done].
    destruct (js_get data "abi") as [abi|]; [|done]. by destruct (js_truthy abi).
Qed.

(** X11.  One live run.  In every reachable state a run of the watcher is
    live exactly when it is the registered one, and cancelled otherwise; the
    registered run is the one created last; so at most one run is live, and
    an ABI is only offered while there is one. *)
Theorem reachable_one_live_run (c : Component) :
  reachable c →
  (∀ i ctx, fetches c !! i = Some ctx →
     (live ctx ↔ cleanup c = Some i) ∧ (cancelled ctx ↔ cleanup c ≠ Some i)) ∧
  (∀ i, cleanup c = Some i → S i = length (fetches c)) ∧
  (∀ i j ctx ctx',
     fetches c !! i = Some ctx → fetches c !! j = Some ctx' →
     live ctx → live ctx' → i = j) ∧
  (is_Some (everscanAbi (form c)) →
     ∃ i ctx, cleanup c = Some i ∧ fetches c !! i = Some ctx ∧ live ctx).
Proof.
  intros Hreach.
  destruct (reachable_inv c Hreach) as (Hcancelled & Hoffer & _).
  pose proof (reachable_registered_run c Hreach) as Hregistered.
  assert (∀ i ctx, fetches c !! i = Some ctx →
            (live ctx ↔ cleanup c = Some i) ∧ (cancelled ctx ↔ cleanup c ≠ Some i))
    as Hruns.
  { intros i ctx Hi. destruct (decide (cleanup c = Some i)) as [Hreg|Hreg].
    - destruct (Hregistered i Hreg) as (_ & ctx' & Hi' & Hlive).
      assert (ctx' = ctx) as -> by congruence.
      split; [done|]. split; [|done].
      intros [Hflag _]. destruct Hlive as [Hclear _]. congruence.
    - pose proof (Hcancelled i ctx Hi Hreg) as Hc. split; [|done].
      split; [|done]. intros [Hclear _]. destruct Hc as [Hflag _]. congruence. }
  split_and!.
  - done.
  - intros i Hi. by apply Hregistered.
  - intros i j ctx ctx' Hi Hj Hl Hl'.
    apply (Hruns i ctx Hi) in Hl. apply (Hruns j ctx' Hj) in Hl'. congruence.
  - intros Hset. destruct (Hoffer Hset) as [i Hi].
    destruct (Hregistered i Hi) as (_ & ctx & Hctx & Hlive). by eauto.
Qed.

(** While the props stay as they are nothing registers a run. *)
Lemma props_unchanged_cleanup (c c' : Component) :
  props_unchanged c c' → cleanup c' = cleanup c.
Proof.
  induction 1 as [c|ev c c' Hc IH|i data c c' Hc IH]; [done|done|].
  rewrite <- IH. unfold fetch_resolved. destruct (fetches c' !! i) as [ctx|]; [|done].
  destruct (codeHashChanged ctx); [done|]. destruct (js_truthy data); [|done].
  destruct (js_get data "abi") as [abi|]; [|done]. by destruct (js_truthy abi).
Qed.

Lemma props_unchanged_reachable (c c' : Component) :
  reachable c → props_unchanged c c' → reachable c'.
Proof.
  intros Hc. induction 1 as [c|ev c c' Hsteps IH|i data c c' Hsteps IH]; [done|..].
  - apply reachable_form. by apply IH.
  - apply reachable_response. by apply IH.
Qed.

(** X12.  Nothing to offer while a prop is [null].  After the form is mounted
    with, or changed to, a [codeHash] or an [address] that is [null], no
    registry response and no event on the form sets [everscanAbi] for as
    long as the props stay as they are: the 'From Everscan' button stays
    disabled and [onSubmitEverscanAbi] emits nothing. *)
Theorem no_offer_while_prop_null (c c' : Component) (ls : gmap string string)
    (codeHash address : option string) :
  codeHash = None ∨ address = None →
  (reachable c → props_unchanged (props_changed codeHash address c) c' →
     everscanAbi (form c') = None ∧ everscan_disabled (form c') = true ∧
     emitted (exec onSubmitEverscanAbi (form c')) = emitted (form c')) ∧
  (props_unchanged (mount ls codeHash address) c' →
     everscanAbi (form c') = None ∧ everscan_disabled (form c') = true ∧
     emitted (exec onSubmitEverscanAbi (form c')) = emitted (form c')).
Proof.
  intros Hnull.
  assert (∀ c0, reachable c0 → cleanup c0 = None → props_unchanged c0 c' →
            everscanAbi (form c') = None ∧ everscan_disabled (form c') = true ∧
            emitted (exec onSubmitEverscanAbi (form c')) = emitted (form c')) as Hquiet.
  { intros c0 Hreach Hnone Hsteps.
    pose proof (props_unchanged_reachable c0 c' Hreach Hsteps) as Hreach'.
    destruct (reachable_inv c' Hreach') as (_ & Hoffer & _).
    rewrite (props_unchanged_cleanup c0 c' Hsteps), Hnone in Hoffer.
    assert (everscanAbi (form c') = None) as Hev.
    { destruct (everscanAbi (form c')) eqn:Hev; [|done].
      by destruct Hoffer as [? ?]; [eauto|]. }
    split_and!; [done| |].
    - unfold everscan_disabled. rewrite Hev. by destruct (inProgress (form c')).
    - unfold onSubmitEverscanAbi. eff_unfold. by rewrite Hev. }
  split.
  - intros Hreach. apply Hquiet; [by constructor|].
    destruct (run_cleanup_spec c (reachable_inv c Hreach)) as (_ & Hnone & _).
    unfold props_changed, watch_callback.
    destruct address as [a|], codeHash as [h|]; try done. by destruct Hnull.
  - apply Hquiet; [by constructor|]. unfold mount, watch_callback.
    destruct address as [a|], codeHash as [h|]; try done. by destruct Hnull.
Qed.




(** ** Storing the same thing again *)

(** An earlier write to a key is forgotten once the key is written again. *)
Lemma store_all_forgets (parent key : string) (t t' : string) (entries : list AbiFile)
    (ls : gmap string string) :
  <[key := t]> (store_all parent entries (<[key := t']> ls))
  = <[key := t]> (store_all parent entries ls).
Proof.
  revert ls. induction entries as [|f l IH]; intros ls.
  - simpl. by rewrite insert_insert_eq.
  - rewrite !store_all_cons.
    destruct (decide (storage_key parent f = key)) as [<-|Hne].
    + by rewrite insert_insert_eq.
    + rewrite (insert_insert_ne ls) by done. apply IH.
Qed.

Lemma store_all_snoc (parent : string) (entries : list AbiFile) (abiFile : AbiFile)
    (ls : gmap string string) :
  store_all parent (entries ++ [abiFile]) ls
  = <[storage_key parent abiFile := text abiFile]> (store_all parent entries ls).
Proof. by rewrite store_all_app. Qed.

Lemma store_all_twice (parent : string) (entries : list AbiFile) (ls : gmap string string) :
  store_all parent entries (store_all parent entries ls) = store_all parent entries ls.
Proof.
  revert ls. induction entries as [|f l IH] using rev_ind; intros ls; [done|].
  rewrite !store_all_snoc, store_all_forgets. by rewrite IH.
Qed.

(** X17.  Importing twice.  Submitting a valid text again under the same
    name, or the same valid archive again while the date is the same, leaves
    [localStorage] and [storedAbi] as the first submit left them; the text is
    emitted a second time. *)
Theorem submit_again_keeps_storage (s : FormState) :
  (∀ loadedText, checkAbi loadedText = Returns () →
     let s1 := exec (onSubmit_resume (Returns loadedText)) s in
     let s2 := exec (onSubmit_resume (Returns loadedText)) s1 in
     localStorage s2 = localStorage s1 ∧ storedAbi s2 = storedAbi s1 ∧
     selectedAbi s2 = selectedAbi s1 ∧
     emitted s2 = emitted s1 ++ [Some loadedText]) ∧
  (∀ zipContent, files zipContent ≠ [] → Forall valid_entry (files zipContent) →
     let s1 := exec (onSubmitZip_resume (Returns zipContent)) s in
     let s2 := exec (onSubmitZip_resume (Returns zipContent)) s1 in
     localStorage s2 = localStorage s1 ∧ storedAbi s2 = storedAbi s1 ∧
     selectedAbi s2 = selectedAbi s1 ∧
     length (emitted s2) = S (length (emitted s1))).
Proof.
  split.
  - intros t Hvalid s1 s2. subst s2 s1.
    rewrite !onSubmit_resume_valid by done. simpl.
    by rewrite insert_insert_eq.
  - intros zc Hne Hall s1 s2. subst s2 s1.
    rewrite !onSubmitZip_resume_valid by done. simpl.
    rewrite store_all_twice. split_and!; try done.
    rewrite length_app. simpl. lia.
Qed.

End form_invariants.

(** ** The filter of the dropdown *)

Section dropdown_filter.
Context `{!Core, !JsonValue, !Runtime, !WebIO, !Common, !StringCase}.



End dropdown_filter.
(** * Further properties of the serializer workspace *)

Section workspace_invariants.
Import SerializerWorkspace.
Context {core_module : Core} {codec : JsonCodec}.

Lemma handleAbi_accounts (w : Workspace) (input : string) :
  let w' := exec (handleAbi input) w in
  freed w' = freed w ++ held w ∧ held w' = option_list (parsed_handler input).
Proof.
  unfold parsed_handler. destruct (parseAbi input) as [h|e] eqn:Hp.
  - by rewrite (handleAbi_parsed w input h Hp).
  - by rewrite (handleAbi_rejected w input e Hp).
Qed.

(** X13.  Every handler is freed once.  Over any sequence of inputs, the
    handlers freed so far followed by the one still held are the handler held
    at the start followed by those [parseAbi] returned, in order.  So when
    [parseAbi] hands out distinct handlers, none is freed twice and the one
    passed to the builder has not been freed; only the last one is still
    held. *)
Theorem handlers_freed_once (inputs : list string) (w : Workspace) :
  let w' := handleAll inputs w in
  freed w' ++ held w' = freed w ++ held w ++ parsed_handlers inputs ∧
  (NoDup (freed w ++ held w ++ parsed_handlers inputs) →
     NoDup (freed w') ∧ ∀ d, decodedAbi (state w') = Some d → handler d ∉ freed w').
Proof.
  intros w'.
  assert (freed w' ++ held w' = freed w ++ held w ++ parsed_handlers inputs) as Hall.
  { subst w'. revert w. induction inputs as [|input inputs IH]; intros w.
    - simpl. by rewrite app_nil_r.
    - simpl. rewrite IH.
      destruct (handleAbi_accounts w input) as [-> ->].
      unfold parsed_handlers. simpl. rewrite <- !app_assoc.
      by destruct (parsed_handler input). }
  split; [done|]. rewrite <- Hall. intros Hnodup.
  apply NoDup_app in Hnodup as (Hfreed & Hdisjoint & _). split; [done|].
  intros d Hd Hin. apply (Hdisjoint _ Hin). unfold held. rewrite Hd.
  by apply list_elem_of_singleton.
Qed.

(** X14.  Either a decoded ABI or an error.  From construction on, after any
    sequence of inputs, the workspace holds a decoded ABI exactly when it
    shows no error; the data it passes to the builder is the data of the
    handler it holds; and the textarea shows the last input pretty-printed. *)
Theorem workspace_decoded_or_error (inputs : list string) (w0 : Workspace) :
  constructor = Returns w0 →
  let w := handleAll inputs w0 in
  (is_Some (decodedAbi (state w)) ↔ error (state w) = None) ∧
  (∀ d, decodedAbi (state w) = Some d → data d = handler_data (handler d)) ∧
  abiInput (state w) = from_option prettyPrint "" (last inputs).
Proof.
  intros Hnew w. subst w.
  induction inputs as [|input inputs IH] using rev_ind.
  - unfold constructor in Hnew. destruct (parseAbi "") as [h|e]; [|done].
    injection Hnew as <-. simpl. split_and!; [|by intros d [= <-]|done].
    split; [done|by eexists].
  - unfold handleAll. rewrite foldl_app, last_snoc. simpl.
    fold (handleAll inputs w0).
    destruct (parseAbi input) as [h|e] eqn:Hp.
    + rewrite (handleAbi_parsed _ input h Hp). simpl.
      split_and!; [|by intros d [= <-]|done]. split; [done|by eexists].
    + rewrite (handleAbi_rejected _ input e Hp). simpl.
      split_and!; [|done|done]. split; [by intros [? ?]|done].
Qed.

End workspace_invariants.

(** * Runs on the concrete environment *)

Import Demo.

(** The string helpers on the names they are used on. *)
Example split_shift_first_dot :
  split_shift "." "Wallet.abi.json" = "Wallet" ∧
  split_shift "." "README" = "README" ∧
  split_shift "T" "2024-05-17T10:20:30.000Z" = "2024-05-17".
Proof. split_and!; reflexivity. Qed.

Example split_pop_last_slash :
  split_pop "/" "https://example.org/contracts.zip" = "contracts.zip" ∧
  split_pop "/" "contracts.zip" = "contracts.zip" ∧
  split_pop "/" "https://example.org/" = "".
Proof. split_and!; reflexivity. Qed.

(** Sorting is stable: of two names that compare equal, the first stays
    first. *)
Example js_sort_stable :
  js_sort (λ x y : string, 0%Z) ["b"; "a"; "c"] = ["b"; "a"; "c"] ∧
  js_sort collator_compare ["b"; "c"; "a"] = ["a"; "b"; "c"].
Proof. split; reflexivity. Qed.

(** The whole path of an archive given by link: it is fetched, unpacked,
    sorted, validated and stored, and its first entry is selected and
    emitted. *)
Example onSubmitZip_from_link :
  let s := exec (do _ <- onChangeZipLink "https://example.org/contracts.zip"; onSubmitZip)
             (setup ∅) in
  storedAbi s = ["[contracts_2024-05-17] Root"; "[contracts_2024-05-17] Wallet"] ∧
  selectedAbi s = Some "[contracts_2024-05-17] Root" ∧
  emitted s = [Some "{root}"] ∧
  error s = None ∧ inProgress s = false.
Proof. vm_compute. split_and!; reflexivity. Qed.

(** A pasted text the core rejects: nothing is stored and the error shows. *)
Example onSubmit_rejected_text :
  let s := exec (do _ <- onChangeText "not an abi"; onSubmit) (setup ∅) in
  localStorage s = ∅ ∧ emitted s = [] ∧ error s = Some "Invalid ABI" ∧
  inProgress s = false.
Proof. vm_compute. split_and!; reflexivity. Qed.

(** C1 on a pasted valid ABI: it is stored under the default name and
    emitted. *)
Lemma onSubmit_persists_only_valid_run :
  localStorage (exec onSubmit pasted_form) = <["abi1" := "{ABI}"]> ∅ ∧
  emitted (exec onSubmit pasted_form) = [Some "{ABI}"].
Proof.
  destruct (onSubmit_persists_only_valid pasted_form eq_refl) as (Hvalid & _ & _).
  apply (Hvalid "{ABI}"); reflexivity.
Defined.

(** Against C2 as stated: both entries of [clashing_archive] are valid and
    get the key [[contracts_2024-05-17] Wallet]; after [processZipContent]
    that key holds the text of [Wallet.json], so [Wallet.abi.json] is not
    stored under its key. *)
Lemma processZipContent_clash :
  Forall valid_entry (files clashing_archive) ∧
  storage_key (parentFormattedFilename clashing_archive) wallet_abi
    = "[contracts_2024-05-17] Wallet" ∧
  localStorage (exec (processZipContent clashing_archive) (setup ∅))
    !! "[contracts_2024-05-17] Wallet" = Some "{second}" ∧
  localStorage (exec (processZipContent clashing_archive) (setup ∅))
    !! storage_key (parentFormattedFilename clashing_archive) wallet_abi
    ≠ Some (text wallet_abi).
Proof.
  split_and!.
  - repeat constructor.
  - reflexivity.
  - vm_compute. reflexivity.
  - vm_compute. discriminate.
Defined.

(** C2 on an archive with distinct keys: both entries are returned and can be
    read back. *)
Lemma processZipContent_validates_then_stores_run :
  ∃ ls',
    processZipContent plain_archive (setup ∅)
    = (Returns [ {| storageKey := "[contracts_2024-05-17] Root"; storedText := "{root}" |};
                 {| storageKey := "[contracts_2024-05-17] Wallet"; storedText := "{first}" |} ],
       set_localStorage ls' (setup ∅)) ∧
    ls' !! "[contracts_2024-05-17] Root" = Some "{root}" ∧
    ls' !! "[contracts_2024-05-17] Wallet" = Some "{first}".
Proof.
  destruct (processZipContent_validates_then_stores plain_archive (setup ∅))
    as (_ & _ & Hvalid).
  destruct Hvalid as (ls' & Hrun & _ & Hlast & _); [done|repeat constructor|].
  exists ls'. split_and!.
  - exact Hrun.
  - apply (Hlast [] root_abi [wallet_abi]); [reflexivity|].
    repeat constructor. vm_compute. discriminate.
  - apply (Hlast [root_abi] wallet_abi []); [reflexivity|constructor].
Defined.

(** C8 on the pasted form, busy and idle. *)
Lemma submit_guarded_by_inProgress_run :
  onSubmit (set_inProgress true pasted_form) = (Returns (), set_inProgress true pasted_form) ∧
  inProgress (exec onSubmit_start pasted_form) = true ∧
  inProgress (exec onSubmit pasted_form) = false.
Proof.
  split_and!.
  - apply (submit_guarded_by_inProgress (set_inProgress true pasted_form)). reflexivity.
  - apply (submit_guarded_by_inProgress pasted_form). reflexivity.
  - apply (submit_guarded_by_inProgress pasted_form). reflexivity.
Defined.



(** C4: the registry has answered, then [address] becomes [null]; the ABI is
    withdrawn and a late answer of the first run is ignored. *)
Lemma props_change_cancels_fetch_run :
  everscanAbi (form answered) = Some ("{" +:+ dquote +:+ "version" +:+ dquote +:+ ":2}") ∧
  everscanAbi (form (props_changed (Some "84dafa44") None answered)) = None ∧
  fetch_resolved 0 registry_answer (props_changed (Some "84dafa44") None answered)
  = props_changed (Some "84dafa44") None answered.
Proof.
  assert (reachable answered) as Hreach by (apply reachable_response, reachable_mount).
  destruct (props_change_cancels_fetch answered (Some "84dafa44") None Hreach)
    as (_ & _ & _ & Hnone & _ & Hstale & _).
  split_and!.
  - reflexivity.
  - exact Hnone.
  - apply Hstale. vm_compute. lia.
Defined.

(** Against C7 as stated: the run is current and the answer is an object with
    an [abi] field, the empty string; [everscanAbi] stays [undefined]. *)
Lemma everscan_abi_falsy_field :
  cleanup mounted = Some 0 ∧
  fetches mounted !! 0
    = Some {| fetch_codeHash := "84dafa44"; fetch_address := "0:abc";
              codeHashChanged := false; aborted := false |} ∧
  js_truthy empty_abi_answer = true ∧
  js_get empty_abi_answer "abi" = Some (DStr "") ∧
  everscanAbi (form (fetch_resolved 0 empty_abi_answer mounted)) = None.
Proof. split_and!; reflexivity. Defined.

(** C7 on an answer that carries an ABI. *)
Lemma everscan_abi_offered_not_stored_run :
  everscanAbi (form answered) = Some (JSON_stringify (DObj [("version", DNum 2)])) ∧
  localStorage (form answered) = ∅ ∧
  exec onSubmitEverscanAbi (form answered)
  = set_emitted [Some (JSON_stringify (DObj [("version", DNum 2)]))] (form answered).
Proof.
  destruct (everscan_abi_offered_not_stored mounted 0 registry_answer (form answered))
    as (Hset & Hstorage & Hemit & _).
  split_and!.
  - eapply Hset; reflexivity.
  - exact Hstorage.
  - unfold exec. by rewrite (Hemit _ eq_refl).
Defined.

(** C9 on a key that is not stored. *)
Lemma onSelectAbi_emits_lookup_run :
  selectedAbi (exec (onSelectAbi "missing") (setup ∅)) = None ∧
  emitted (exec (onSelectAbi "missing") (setup ∅)) = [None].
Proof.
  apply (onSelectAbi_emits_lookup (setup ∅) "missing"). reflexivity.
Defined.

(** C6 on a link. *)
Lemma loadAbiText_source_priority_run :
  loadAbiText linked_fields = Returns "{ABI version: 2}".
Proof.
  destruct (loadAbiText_source_priority linked_fields) as (_ & Hlink & _).
  rewrite (Hlink eq_refl "https://example.org/wallet.abi.json"
             "https://example.org/wallet.abi.json" eq_refl eq_refl).
  reflexivity.
Defined.

(** X2 on the pasted ABI. *)
Lemma onSubmit_then_onSelectAbi_run :
  localStorage (exec (onSubmit_resume (Returns "{ABI}")) pasted_form) !! "abi1"
    = Some "{ABI}" ∧
  emitted (exec (onSelectAbi "abi1") (exec (onSubmit_resume (Returns "{ABI}")) pasted_form))
    = [Some "{ABI}"; Some "{ABI}"].
Proof.
  destruct (onSubmit_then_onSelectAbi pasted_form "{ABI}")
    as (Hstored & _ & _ & _ & Hemitted & _); [reflexivity|].
  split; [exact Hstored|exact Hemitted].
Defined.

(** X4 on the pasted ABI and on a text the core rejects. *)
Lemma submit_closes_modal_on_success_run :
  modalType (exec (onSubmit_resume (Returns "{ABI}")) (set_modalType (Some FROM_TEXT) pasted_form))
    = None ∧
  modalType (exec (onSubmit_resume (Returns "oops")) (set_modalType (Some FROM_TEXT) pasted_form))
    = Some FROM_TEXT.
Proof.
  destruct (submit_closes_modal_on_success (set_modalType (Some FROM_TEXT) pasted_form))
    as (Hok & _ & Hfail & _).
  split.
  - apply (Hok "{ABI}"). reflexivity.
  - apply (Hfail (Returns "oops")). vm_compute. by eexists.
Defined.

(** X5 on a fresh form, and on an empty zip link. *)
Lemma submit_without_input_run :
  exec onSubmit (setup ∅) = set_error (Some "Error: No ABI input specified") (setup ∅) ∧
  exec onSubmitZip (exec (onChangeZipLink "") (setup ∅))
  = set_error (Some "Error: No zip link or file specified")
      (exec (onChangeZipLink "") (setup ∅)).
Proof.
  split.
  - apply (submit_without_input (setup ∅)); reflexivity.
  - apply (submit_without_input (exec (onChangeZipLink "") (setup ∅)));
      [reflexivity|reflexivity|by right].
Defined.

(** X6 on an archive whose second entry is rejected. *)
Lemma onSubmitZip_names_rejected_entry_run :
  error (exec (onSubmitZip_resume (Returns broken_archive)) (setup ∅))
    = Some "Error: Processing error for 'Broken.abi.json' file. Internal Invalid ABI" ∧
  localStorage (exec (onSubmitZip_resume (Returns broken_archive)) (setup ∅)) = ∅.
Proof.
  destruct (onSubmitZip_names_rejected_entry (setup ∅) broken_archive
              [root_abi] [wallet_abi] broken_abi (JsThrown "Invalid ABI"))
    as (Herror & Hstorage & _); [reflexivity|by repeat constructor|reflexivity|].
  split; [exact Herror|exact Hstorage].
Defined.

(** X7 on the pasted ABI. *)
Lemma closeModal_does_not_cancel_onSubmit_run :
  localStorage (exec (onSubmit_resume (Returns "{ABI}"))
                  (exec closeModal (exec onSubmit_start pasted_form)))
  = <["abi1" := "{ABI}"]> ∅.
Proof.
  destruct (closeModal_does_not_cancel_onSubmit pasted_form eq_refl)
    as (_ & _ & _ & Hstored & _).
  apply (Hstored "{ABI}"); reflexivity.
Defined.

(** X8 on the archive behind the link. *)
Lemma loadZipContent_unpacks_and_sorts_run :
  loadZipContent zip_link_fields = Returns loaded_archive ∧
  archive_filename loaded_archive = split_pop "/" "https://example.org/contracts.zip" ∧
  filename <$> files loaded_archive ≡ₚ ["Wallet.abi.json"; "Root.abi.json"].
Proof.
  assert (loadZipContent zip_link_fields = Returns loaded_archive) as Hload
    by (vm_compute; reflexivity).
  destruct (loadZipContent_unpacks_and_sorts zip_link_fields loaded_archive Hload)
    as (_ & Hname & buffer & entries & Hbuffer & Hunzip & Hnames & _).
  split_and!; [exact Hload|exact Hname|].
  vm_compute in Hbuffer. injection Hbuffer as <-.
  vm_compute in Hunzip. injection Hunzip as <-. exact Hnames.
Defined.

(** X9 after a link and then a text were entered: the link is gone. *)
Lemma reachable_single_source_run :
  input_text (fieldsInput (form retyped)) = Some "{ABI}" ∧
  input_link (fieldsInput (form retyped)) = None.
Proof.
  assert (reachable retyped) as Hreach
    by (do 2 apply reachable_form; apply reachable_mount).
  destruct (reachable_single_source retyped Hreach) as (_ & Htext & _).
  split; [reflexivity|]. apply Htext. by eexists.
Defined.

(** X11 after a change of code hash: the second run is the registered one. *)
Lemma reachable_one_live_run_run :
  cleanup rehashed = Some 1 ∧ 2 = length (fetches rehashed).
Proof.
  assert (reachable rehashed) as Hreach
    by (apply reachable_props, reachable_response, reachable_mount).
  destruct (reachable_one_live_run rehashed Hreach) as (_ & Hlast & _).
  split; [reflexivity|]. apply (Hlast 1). reflexivity.
Defined.

(** X12 after the address has become [null]. *)
Lemma no_offer_while_prop_null_run :
  everscanAbi (form answered) = Some (JSON_stringify (DObj [("version", DNum 2)])) ∧
  everscanAbi (form detached) = None ∧ everscan_disabled (form detached) = true.
Proof.
  assert (reachable answered) as Hreach by (apply reachable_response, reachable_mount).
  destruct (no_offer_while_prop_null answered detached ∅ (Some "84dafa44") None)
    as [Hchanged _]; [by right|].
  destruct Hchanged as (Hnone & Hdisabled & _); [exact Hreach| |].
  { apply props_unchanged_response, props_unchanged_refl. }
  split_and!; [reflexivity|exact Hnone|exact Hdisabled].
Defined.



(** X17 on the archive with distinct keys. *)
Lemma submit_again_keeps_storage_run :
  localStorage (exec (onSubmitZip_resume (Returns plain_archive))
                  (exec (onSubmitZip_resume (Returns plain_archive)) (setup ∅)))
  = localStorage (exec (onSubmitZip_resume (Returns plain_archive)) (setup ∅)).
Proof.
  destruct (submit_again_keeps_storage (setup ∅)) as [_ Hzip].
  apply (Hzip plain_archive); [done|by repeat constructor].
Defined.

Import SerializerWorkspace.

(** C5 on an input the core decodes and on one it rejects. *)
Lemma handleAbi_decodes_through_parseAbi_run :
  constructor = Returns fresh_workspace ∧
  decodedAbi (state (exec (handleAbi "{x}") fresh_workspace)) = Some (prepareHandler 3) ∧
  freed (exec (handleAbi "{x}") fresh_workspace) = [0] ∧
  decodedAbi (state (exec (handleAbi "transfer") fresh_workspace)) = None ∧
  error (state (exec (handleAbi "transfer") fresh_workspace))
    = Some "Error: unknown signature".
Proof.
  destruct (handleAbi_decodes_through_parseAbi fresh_workspace "{x}")
    as (_ & Hfreed & Hok & _).
  destruct (handleAbi_decodes_through_parseAbi fresh_workspace "transfer")
    as (_ & _ & _ & Hbad).
  split_and!.
  - reflexivity.
  - apply (Hok 3). reflexivity.
  - exact Hfreed.
  - apply (Hbad (JsError "unknown signature")). reflexivity.
  - apply (Hbad (JsError "unknown signature")). reflexivity.
Defined.

(** The literal codec prints what it parses back. *)
Lemma literal_round_trip (v : Literal) :
  ∃ v', JSON_parse (JSON_stringify_indent v 4) = Some v' ∧
        JSON_stringify_indent v' 4 = JSON_stringify_indent v 4.
Proof. exists v. by destruct v. Defined.

(** C10 on a literal between spaces. *)
Lemma prettyPrint_idempotent_run :
  prettyPrint "  true " = "true" ∧
  prettyPrint (prettyPrint "  true ") = prettyPrint "  true ".
Proof.
  destruct (prettyPrint_idempotent (codec := json_codec) literal_round_trip "  true ")
    as (Hparsed & _ & Hidem).
  split.
  - apply (Hparsed LTrue). reflexivity.
  - exact Hidem.
Defined.

(** X13 over three inputs, the second of which the core rejects. *)
Lemma handlers_freed_once_run :
  freed (handleAll ["{x}"; "transfer"; "{yy}"] fresh_workspace)
    ++ held (handleAll ["{x}"; "transfer"; "{yy}"] fresh_workspace) = [0; 3; 4] ∧
  NoDup (freed (handleAll ["{x}"; "transfer"; "{yy}"] fresh_workspace)).
Proof.
  destruct (handlers_freed_once ["{x}"; "transfer"; "{yy}"] fresh_workspace)
    as [Hall Hnodup].
  split; [exact Hall|]. apply Hnodup.
  apply (NoDup_ListNoDup [0; 3; 4]). repeat constructor; simpl; lia.
Defined.

(** X14 after a rejected input. *)
Lemma workspace_decoded_or_error_run :
  abiInput (state (handleAll ["{x}"; "transfer"] fresh_workspace)) = "transfer" ∧
  (is_Some (decodedAbi (state (handleAll ["{x}"; "transfer"] fresh_workspace)))
   ↔ error (state (handleAll ["{x}"; "transfer"] fresh_workspace)) = None).
Proof.
  destruct (workspace_decoded_or_error ["{x}"; "transfer"] fresh_workspace eq_refl)
    as (Hexclusive & _ & Hshown).
  split; [exact Hshown|exact Hexclusive].
Defined.
